(** * Verification of the [Mask] engine of silx (gui/plot/MaskToolsWidget.py)

    The class [Mask] owns a 2D array of [uint8] labels, a bounded undo history
    of full snapshots and a redo stack, and notifies listeners through three
    Qt signals.  The development below embeds the class body shallowly:

    - numpy arrays are a shape tuple together with the flat row-major
      (C-contiguous) buffer;
    - methods are computations in a small monad threading the object state,
      the emitted signals and Python exceptions;
    - the external geometry module [silx.image.shapes] is an interface. *)

From Stdlib Require Import ZArith Lia.
From stdpp Require Import base list numbers strings gmap.

Set Default Proof Using "Type".

(** ** Python exceptions and results *)

Inductive exn := AssertionError | IndexError | ValueError.

Inductive result (A : Type) :=
  | Ok (a : A)
  | Raise (e : exn).
Arguments Ok {A} a.
Arguments Raise {A} e.

(** ** numpy arrays of dtype uint8 *)

Module numpy.

(** [shape] is the shape tuple, [data] the buffer in C order. *)
Record ndarray := { shape : list nat; data : list Z }.

Definition size_of (sh : list nat) : nat := foldr Nat.mul 1 sh.

(** [numpy.zeros(shape, dtype=numpy.uint8)] *)
Definition zeros (sh : list nat) : ndarray :=
  {| shape := sh; data := replicate (size_of sh) 0%Z |}.

(** Conversion of an integer to [uint8] (wrap-around). *)
Definition to_uint8 (v : Z) : Z := (v mod 256)%Z.

(** [numpy.array(a, dtype=numpy.uint8)] on an integer array. *)
Definition astype_uint8 (a : ndarray) : ndarray :=
  {| shape := shape a; data := to_uint8 <$> data a |}.

(** [a[r, c]] for non-negative indices of a 2D array; [None] stands for
    an [IndexError]. *)
Definition getitem (a : ndarray) (r c : nat) : option Z :=
  match shape a with
  | [R; C] => if decide (r < R ∧ c < C) then data a !! (r * C + c) else None
  | _ => None
  end.

(** *** Broadcasting, as used by [numpy.equal] *)

Definition broadcast_dim (x y : nat) : option nat :=
  if decide (x = y) then Some x
  else if decide (x = 1) then Some y
  else if decide (y = 1) then Some x
  else None.

(** Shapes are aligned on their last axis: both arguments are reversed. *)
Fixpoint broadcast_rev (s1 s2 : list nat) : option (list nat) :=
  match s1, s2 with
  | [], s | s, [] => Some s
  | x :: s1', y :: s2' =>
      match broadcast_dim x y, broadcast_rev s1' s2' with
      | Some d, Some r => Some (d :: r)
      | _, _ => None
      end
  end.

Definition broadcast_shapes (s1 s2 : list nat) : option (list nat) :=
  reverse <$> broadcast_rev (reverse s1) (reverse s2).

(** All multi-indices of a shape, in C order ([numpy.ndindex]). *)
Fixpoint ndindex (sh : list nat) : list (list nat) :=
  match sh with
  | [] => [[]]
  | d :: sh' => i ← seq 0 d; (cons i) <$> ndindex sh'
  end.

(** Offset of a multi-index in the buffer; an axis of length 1 is
    stretched, every index along it reads element 0. *)
Definition ravel (sh idx : list nat) : nat :=
  foldl (λ acc di, acc * di.1 + di.2 `mod` di.1) 0 (zip sh idx).

(** Element of [a] seen through a broadcast multi-index [idx]. *)
Definition item (a : ndarray) (idx : list nat) : Z :=
  default 0%Z
    (data a !! ravel (shape a) (drop (length idx - length (shape a)) idx)).

(** [numpy.all(numpy.equal(a, b))]; shapes that do not broadcast raise
    [ValueError]. *)
Definition all_equal (a b : ndarray) : result bool :=
  match broadcast_shapes (shape a) (shape b) with
  | None => Raise ValueError
  | Some sh =>
      Ok (forallb (λ idx, Z.eqb (item a idx) (item b idx)) (ndindex sh))
  end.

(** Element-wise equality of two arrays of one shape. *)
Definition array_equal (a b : ndarray) : Prop :=
  shape a = shape b ∧
  ∀ idx, idx ∈ ndindex (shape a) → item a idx = item b idx.

(** *** Basic slices [start:stop] along an axis of length [n] *)

Definition slice_bound (x : Z) (n : nat) : Z :=
  if (x <? 0)%Z then Z.max (x + Z.of_nat n) 0 else Z.min x (Z.of_nat n).

Definition slice_indices (start stop : Z) (n : nat) : list nat :=
  let s := slice_bound start n in
  let e := slice_bound stop n in
  seq (Z.to_nat s) (Z.to_nat (e - s)).

(** *** Assignments through index sets of a 2D array with [C] columns *)

(** [a[rows, cols] = v] for in-range coordinate pairs. *)
Definition setitems (C : nat) (pts : list (nat * nat)) (v : Z)
    (d : list Z) : list Z :=
  foldl (λ d p, <[p.1 * C + p.2 := v]> d) d pts.

(** [a[rows, cols] == v], the boolean selector over the pairs. *)
Definition items_eq (C : nat) (d : list Z) (v : Z) (p : nat * nat) : bool :=
  bool_decide (d !! (p.1 * C + p.2) = Some v).

(** [a == v] and [a != v] against a scalar, element by element. *)
Definition eq_scalar (v : Z) (d : list Z) : list bool :=
  (λ x, bool_decide (x = v)) <$> d.

Definition ne_scalar (v : Z) (d : list Z) : list bool :=
  (λ x, bool_decide (x ≠ v)) <$> d.

(** [a[sel] = w] for a boolean array [sel] of the shape of [a]. *)
Definition setitem_mask (sel : list bool) (w : Z) (d : list Z) : list Z :=
  zip_with (λ (b : bool) x, if b then w else x) sel d.

(** [numpy.zeros(shape)] for a tuple of Python integers: a negative
    dimension raises [ValueError]. *)
Definition zeros_of (sh : list Z) : result ndarray :=
  if decide (Forall (λ n, 0 ≤ n)%Z sh) then Ok (zeros (Z.to_nat <$> sh))
  else Raise ValueError.

(** [numpy.nonzero(a)] unpacked into two coordinate arrays: the array must
    be 2D; coordinates come in C order. *)
Definition nonzero (a : ndarray) : result (list Z * list Z) :=
  match shape a with
  | [R; C] =>
      let pts :=
        filter (λ p : nat * nat, default 0%Z (data a !! (p.1 * C + p.2)) ≠ 0%Z)
               (r ← seq 0 R; (pair r) <$> seq 0 C) in
      Ok ((λ p : nat * nat, Z.of_nat p.1) <$> pts,
          (λ p : nat * nat, Z.of_nat p.2) <$> pts)
  | _ => Raise ValueError
  end.

End numpy.

Import numpy.

(** ** Object state, signals and the method monad *)

(** The three Qt signals of the class. *)
Inductive Signal :=
  | sigChanged
  | sigUndoable (b : bool)
  | sigRedoable (b : bool).

(** Attributes of a [Mask] instance.  [_history] and [_redo] are Python lists:
    index 0 first, [append] and [pop()] work at the end. *)
Record Mask := {
  historyDepth : Z;
  _mask : ndarray;
  _history : list ndarray;
  _redo : list ndarray
}.

Definition set_mask (a : ndarray) (s : Mask) : Mask :=
  {| historyDepth := historyDepth s; _mask := a;
     _history := _history s; _redo := _redo s |}.

Definition set_history (h : list ndarray) (s : Mask) : Mask :=
  {| historyDepth := historyDepth s; _mask := _mask s;
     _history := h; _redo := _redo s |}.

Definition set_redo (r : list ndarray) (s : Mask) : Mask :=
  {| historyDepth := historyDepth s; _mask := _mask s;
     _history := _history s; _redo := r |}.

(** A method body: reads and updates [self], emits signals in order, and
    either returns or raises. *)
Definition M (A : Type) : Type := Mask → result (A * Mask * list Signal).

#[global] Instance M_ret : MRet M := λ A x s, Ok (x, s, []).

#[global] Instance M_bind : MBind M := λ A B f m s,
  match m s with
  | Raise e => Raise e
  | Ok (x, s1, ev1) =>
      match f x s1 with
      | Raise e => Raise e
      | Ok (y, s2, ev2) => Ok (y, s2, ev1 ++ ev2)
      end
  end.

Definition get_self : M Mask := λ s, Ok (s, s, []).
Definition modify (f : Mask → Mask) : M unit := λ s, Ok (tt, f s, []).
Definition emit (e : Signal) : M unit := λ s, Ok (tt, s, [e]).
Definition raise {A} (e : exn) : M A := λ _, Raise e.
Definition lift {A} (r : result A) : M A := λ s,
  match r with Ok a => Ok (a, s, []) | Raise e => Raise e end.
Definition assert (b : bool) : M unit :=
  if b then mret tt else raise AssertionError.
Definition when (b : bool) (m : M unit) : M unit :=
  if b then m else mret tt.

(** [l.pop()] and [l[-1]]: both raise [IndexError] on an empty list. *)
Definition list_pop {A} (l : list A) : result (A * list A) :=
  match list.last l with
  | Some x => Ok (x, removelast l)
  | None => Raise IndexError
  end.

Definition list_top {A} (l : list A) : result A :=
  match list.last l with
  | Some x => Ok x
  | None => Raise IndexError
  end.

(** ** The class [Mask] *)

(** [__init__]: the mask starts as the empty 1D array [numpy.array(())], of
    shape [(0,)], with empty history and redo lists. *)
Definition Mask_init : Mask :=
  {| historyDepth := 10;
     _mask := {| shape := [0]; data := [] |};
     _history := [];
     _redo := [] |}.

Definition _notify : M unit := emit sigChanged.

(** [setMask(mask)]: rank 2 is asserted, values are converted to [uint8]. *)
Definition setMask (mask : ndarray) : M unit :=
  assert (bool_decide (length (shape mask) = 2));;
  modify (set_mask (astype_uint8 mask));;
  _notify.

(** [getMask(copy)]: the current mask as an array; [self] is left as it
    is. *)
Definition getMask : M ndarray :=
  self ← get_self;
  mret (_mask self).

(** *** History control *)

Definition resetHistory : M unit :=
  self ← get_self;
  modify (set_history [_mask self]);;
  modify (set_redo []);;
  emit (sigUndoable false);;
  emit (sigRedoable false).

(** [while len(h) >= depth: h.pop(0)] *)
Fixpoint evict (depth : Z) (h : list ndarray) : result (list ndarray) :=
  match h with
  | [] => if (0 >=? depth)%Z then Raise IndexError else Ok []
  | _ :: t =>
      if (Z.of_nat (length h) >=? depth)%Z then evict depth t else Ok h
  end.

Definition commit : M unit :=
  self ← get_self;
  changed ←
    match list.last (_history self), _redo self with
    | None, _ => mret true
    | Some _, _ :: _ => mret true
    | Some top, [] =>
        same ← lift (all_equal (_mask self) top); mret (negb same)
    end;
  when changed (
    when (bool_decide (_redo self ≠ [])) (
      modify (set_redo []);;
      emit (sigRedoable false));;
    h ← lift (evict (historyDepth self) (_history self));
    modify (set_history (h ++ [_mask self]));;
    when (bool_decide (length (h ++ [_mask self]) = 2))
      (emit (sigUndoable true))).

Definition undo : M unit :=
  self ← get_self;
  when (bool_decide (1 < length (_history self))) (
    '(top, h) ← lift (list_pop (_history self));
    modify (set_redo (_redo self ++ [top]));;
    modify (set_history h);;
    prev ← lift (list_top h);
    modify (set_mask prev);;
    _notify;;
    when (bool_decide (length (_redo self ++ [top]) = 1))
      (emit (sigRedoable true));;
    when (bool_decide (length h = 1))
      (emit (sigUndoable false))).

Definition redo : M unit :=
  self ← get_self;
  when (bool_decide (_redo self ≠ [])) (
    '(top, r) ← lift (list_pop (_redo self));
    modify (set_redo r);;
    modify (set_mask top);;
    modify (set_history (_history self ++ [top]));;
    _notify;;
    when (bool_decide (r = []))
      (emit (sigRedoable false));;
    when (bool_decide (length (_history self ++ [top]) = 2))
      (emit (sigUndoable true))).

(** *** Whole mask operations *)

(** [level > 0 and level < 256] *)
Definition valid_level (level : Z) : bool :=
  bool_decide (0 < level ∧ level < 256)%Z.

Definition clear (level : Z) : M unit :=
  assert (valid_level level);;
  self ← get_self;
  let d := data (_mask self) in
  modify (set_mask {| shape := shape (_mask self);
                      data := setitem_mask (eq_scalar level d) 0 d |});;
  _notify.

(** [reset(shape=None)]; [shape] is a tuple of Python integers. *)
Definition reset (shape : option (list Z)) : M unit :=
  let shape := default [0; 0]%Z shape in
  assert (bool_decide (length shape = 2));;
  self ← get_self;
  let shapeChanged :=
    bool_decide (shape ≠ Z.of_nat <$> numpy.shape (_mask self)) in
  z ← lift (zeros_of shape);
  modify (set_mask z);;
  when shapeChanged resetHistory;;
  _notify.

Definition invert (level : Z) : M unit :=
  assert (valid_level level);;
  self ← get_self;
  let d := data (_mask self) in
  let masked := eq_scalar level d in
  let d1 := setitem_mask (eq_scalar 0 d) level d in
  modify (set_mask {| shape := shape (_mask self);
                      data := setitem_mask masked 0 d1 |});;
  _notify.

(** *** Drawing operations *)

(** Cells of the view [a[r0:r1, c0:c1]] of an array of shape [(R, C)]. *)
Definition view_cells (r0 r1 c0 c1 : Z) (R C : nat) : list (nat * nat) :=
  r ← slice_indices r0 r1 R; (pair r) <$> slice_indices c0 c1 C.

(** The mask is 2D after any [reset] or [setMask]; on the initial 1D array
    the two-axis slice raises [IndexError]. *)
Definition updateRectangle (level row col height width : Z) (mask : bool)
    : M unit :=
  assert (valid_level level);;
  self ← get_self;
  match shape (_mask self) with
  | [R; C] =>
      let selection :=
        view_cells (Z.max 0 row) (row + height + 1)
                   (Z.max 0 col) (col + width + 1) R C in
      let d := data (_mask self) in
      modify (set_mask
        {| shape := [R; C];
           data := if mask then setitems C selection level d
                   else setitems C (filter (λ p, items_eq C d level p) selection)
                                 0 d |})
  | _ => raise IndexError
  end;;
  _notify.

(** In-grid test of [updatePoints] on one coordinate pair. *)
Definition in_grid (R C : nat) (p : Z * Z) : Prop :=
  (0 ≤ p.1 ∧ 0 ≤ p.2 ∧ p.1 < Z.of_nat R ∧ p.2 < Z.of_nat C)%Z.

#[global] Instance in_grid_dec R C p : Decision (in_grid R C p).
Proof. unfold in_grid. apply _. Defined.

Definition to_cell (p : Z * Z) : nat * nat := (Z.to_nat p.1, Z.to_nat p.2).

(** [rows] and [cols] are 1D integer arrays.  Arrays of different lengths
    fail: in the comparison when they do not broadcast ([ValueError]), else
    in [rows[valid]] ([IndexError]).  [shape[1]] of the initial 1D mask is an
    [IndexError] too. *)
Definition updatePoints (level : Z) (rows cols : list Z) (mask : bool)
    : M unit :=
  self ← get_self;
  when (bool_decide (length rows ≠ length cols ∧
                     length rows ≠ 1 ∧ length cols ≠ 1))
    (raise ValueError);;
  match shape (_mask self) with
  | [R; C] =>
      when (bool_decide (length rows ≠ length cols)) (raise IndexError);;
      let valid := to_cell <$> filter (in_grid R C) (zip rows cols) in
      let d := data (_mask self) in
      modify (set_mask
        {| shape := [R; C];
           data := if mask then setitems C valid (to_uint8 level) d
                   else setitems C (filter (λ p, items_eq C d level p) valid)
                                 0 d |})
  | _ => raise IndexError
  end;;
  _notify.

Definition updateStencil (level : Z) (stencil : ndarray) (mask : bool)
    : M unit :=
  '(rows, cols) ← lift (nonzero stencil);
  updatePoints level rows cols mask.

(** ** The geometry module [silx.image.shapes]

    Its source is not part of the class; the three functions used by [Mask]
    are taken as an interface.  [float] stands for the type of vertex
    coordinates and radii. *)
Class Shapes := {
  float : Type;
  polygon_fill_mask : list (float * float) → list nat → ndarray;
  circle_fill : Z → Z → float → list Z * list Z;
  draw_line : Z → Z → Z → Z → Z → list Z * list Z
}.

Section WithShapes.
Context `{Shapes}.

(** A boolean index of another shape than the mask raises [IndexError]. *)
Definition updatePolygon (level : Z) (vertices : list (float * float))
    (mask : bool) : M unit :=
  self ← get_self;
  let fill := polygon_fill_mask vertices (shape (_mask self)) in
  when (bool_decide (shape fill ≠ shape (_mask self))) (raise IndexError);;
  let d := data (_mask self) in
  modify (set_mask
    {| shape := shape (_mask self);
       data := if mask
               then setitem_mask (ne_scalar 0 (data fill)) (to_uint8 level) d
               else setitem_mask (zip_with andb (ne_scalar 0 (data fill))
                                                (eq_scalar level d)) 0 d |});;
  _notify.

Definition updateDisk (level crow ccol : Z) (radius : float) (mask : bool)
    : M unit :=
  let '(rows, cols) := circle_fill crow ccol radius in
  updatePoints level rows cols mask.

Definition updateLine (level row0 col0 row1 col1 width : Z) (mask : bool)
    : M unit :=
  let '(rows, cols) := draw_line row0 col0 row1 col1 width in
  updatePoints level rows cols mask.

(** *** Method calls and reachable states *)

Inductive Call :=
  | CsetMask (mask : ndarray)
  | CresetHistory
  | Ccommit
  | Cundo
  | Credo
  | Cclear (level : Z)
  | Creset (shape : option (list Z))
  | Cinvert (level : Z)
  | CupdateRectangle (level row col height width : Z) (mask : bool)
  | CupdatePolygon (level : Z) (vertices : list (float * float)) (mask : bool)
  | CupdatePoints (level : Z) (rows cols : list Z) (mask : bool)
  | CupdateStencil (level : Z) (stencil : ndarray) (mask : bool)
  | CupdateDisk (level crow ccol : Z) (radius : float) (mask : bool)
  | CupdateLine (level row0 col0 row1 col1 width : Z) (mask : bool).

Definition call (c : Call) : M unit :=
  match c with
  | CsetMask mask => setMask mask
  | CresetHistory => resetHistory
  | Ccommit => commit
  | Cundo => undo
  | Credo => redo
  | Cclear level => clear level
  | Creset shape => reset shape
  | Cinvert level => invert level
  | CupdateRectangle level row col height width mask =>
      updateRectangle level row col height width mask
  | CupdatePolygon level vertices mask => updatePolygon level vertices mask
  | CupdatePoints level rows cols mask => updatePoints level rows cols mask
  | CupdateStencil level stencil mask => updateStencil level stencil mask
  | CupdateDisk level crow ccol radius mask =>
      updateDisk level crow ccol radius mask
  | CupdateLine level row0 col0 row1 col1 width mask =>
      updateLine level row0 col0 row1 col1 width mask
  end.

(** One method call that returns normally. *)
Definition step (s : Mask) (c : Call) (s' : Mask) : Prop :=
  ∃ ev, call c s = Ok (tt, s', ev).

(** States of a [Mask] object after construction and any sequence of
    method calls that returned. *)
Inductive reachable : Mask → Prop :=
  | reachable_init : reachable Mask_init
  | reachable_step s c s' : reachable s → step s c s' → reachable s'.

End WithShapes.

(** ** Notions used by the statements *)

(** State left by a method call; a call that raised leaves [self] as it
    was before the call. *)
Definition state_after (m : M unit) (s : Mask) : Mask :=
  match m s with
  | Ok (_, s', _) => s'
  | Raise _ => s
  end.

(** [n] calls of [undo()] in a row. *)
Definition undos (n : nat) (s : Mask) : Mask :=
  Nat.iter n (state_after undo) s.

(** Every stored snapshot has the shape of the current grid. *)
Definition uniform (s : Mask) : Prop :=
  Forall (λ a, shape a = shape (_mask s)) (_history s ++ _redo s).

(** History and redo list together fit in a positive [historyDepth]. *)
Definition within_depth (s : Mask) : Prop :=
  (0 < historyDepth s)%Z ∧
  (Z.of_nat (length (_history s) + length (_redo s)) ≤ historyDepth s)%Z.

(** The method changed the grid only, and kept its shape. *)
Definition only_mask (s s' : Mask) : Prop :=
  ∃ a, s' = set_mask a s ∧ shape a = shape (_mask s).

(** A geometry module that selects no cell, to run the methods on concrete
    inputs. *)
Definition no_shapes : Shapes :=
  {| float := Z;
     polygon_fill_mask := λ _ sh, zeros sh;
     circle_fill := λ _ _ _, ([], []);
     draw_line := λ _ _ _ _ _, ([], []) |}.

(** Unfolding of the monad operations, and inversion of a run that
    returned. *)
Ltac unfold_monad :=
  unfold assert, when, _notify in *;
  unfold mbind, M_bind, mret, M_ret, get_self, modify, emit, raise, lift in *.

Ltac monad_inv H :=
  unfold_monad; cbn in H;
  repeat match type of H with
    | context [if ?b then _ else _] =>
        match b with
        | bool_decide _ => destruct b eqn:?
        | valid_level _ => destruct b eqn:?
        end; cbn in H; try discriminate H
    | context [match shape ?a with _ => _ end] =>
        let E := fresh "Hshape" in
        destruct (shape a) as [|? [|? [|? ?]]] eqn:E; cbn in H;
        try discriminate H
    end.

(** ** Loading a mask ([MaskToolsWidget.load])

    The widget holds a [Mask] and the active image [_data].  Reading the
    file is input/output: [load] is given what the decoders produced, [None]
    when neither [numpy.load] nor [EdfFile] could read the file, and the
    shape of [_data], a 2D image. *)

(** What [load] returns: [False], [True], or the message of a resize, kept
    as the two shapes it prints. *)
Inductive load_result :=
  | LoadFalse
  | LoadTrue
  | LoadResized (from to : list nat).

(** [dst[:height, :width] = src[:height, :width]] on 2D arrays, [height] and
    [width] not exceeding the axes of either array, so that the two views
    have one shape; elements are converted to the [uint8] of [dst]. *)
Definition copy_corner (height width : nat) (src dst : ndarray)
    : result ndarray :=
  match shape src, shape dst with
  | [R'; C'], [R; C] =>
      let to := view_cells 0 (Z.of_nat height) 0 (Z.of_nat width) R C in
      let from := view_cells 0 (Z.of_nat height) 0 (Z.of_nat width) R' C' in
      Ok {| shape := [R; C];
            data :=
              foldl (λ d (pq : (nat * nat) * (nat * nat)),
                       <[pq.1.1 * C + pq.1.2 :=
                           to_uint8 (default 0%Z
                             (data src !! (pq.2.1 * C' + pq.2.2)))]> d)
                    (data dst) (zip to from) |}
  | _, _ => Raise IndexError
  end.

Definition load (data_shape : nat * nat) (decoded : option ndarray)
    : M load_result :=
  match decoded with
  | None => mret LoadFalse
  | Some mask =>
      if bool_decide (length (shape mask) ≠ 2) then mret LoadFalse
      else
        result ←
          (if bool_decide (shape mask = [data_shape.1; data_shape.2])
           then
             setMask mask;;
             mret LoadTrue
           else
             let resizedMask := zeros [data_shape.1; data_shape.2] in
             let height := Nat.min data_shape.1 (nth 0 (shape mask) 0) in
             let width := Nat.min data_shape.2 (nth 1 (shape mask) 0) in
             resizedMask ← lift (copy_corner height width mask resizedMask);
             setMask resizedMask;;
             mret (LoadResized (shape mask) (shape resizedMask)));
        commit;;
        mret result
  end.

(** ** The module [Colors] (gui/plot/Colors.py)

    Colour names and codes are Python strings; the two dictionaries are
    finite maps.  Floating-point values and the built-in [int(s, 16)] are
    taken as an interface. *)

Module Colors.

(** Exceptions the module can raise. *)
Inductive error :=
  | KeyError (key : string)
  | AssertionError
  | ValueError.

Inductive outcome (A : Type) :=
  | Done (a : A)
  | Fail (e : error).
Arguments Done {A} a.
Arguments Fail {A} e.

(** Dictionary of common colors. *)
Definition COLORDICT : gmap string string :=
  list_to_map
    [("b", "#0000ff"); ("blue", "#0000ff");
     ("r", "#ff0000"); ("red", "#ff0000");
     ("g", "#00ff00"); ("green", "#00ff00");
     ("k", "#000000"); ("black", "#000000");
     ("white", "#ffffff");
     ("pink", "#ff66ff");
     ("brown", "#a52a2a");
     ("orange", "#ff9900");
     ("violet", "#6600ff");
     ("gray", "#a0a0a4"); ("grey", "#a0a0a4");
     ("y", "#ffff00"); ("yellow", "#ffff00");
     ("m", "#ff00ff"); ("magenta", "#ff00ff");
     ("c", "#00ffff"); ("cyan", "#00ffff");
     ("darkBlue", "#000080");
     ("darkRed", "#800000");
     ("darkGreen", "#008000");
     ("darkBrown", "#660000");
     ("darkCyan", "#008080");
     ("darkYellow", "#808000");
     ("darkMagenta", "#800080")].

Definition _COLORMAP_CURSOR_COLORS : gmap string string :=
  list_to_map
    [("gray", "pink");
     ("reversed gray", "pink");
     ("temperature", "black");
     ("red", "white");
     ("green", "white");
     ("blue", "white")].

(** [_COLORMAP_CURSOR_COLORS.get(colormapName, 'black')] *)
Definition cursorColorForColormap (colormapName : string) : string :=
  default "black" (_COLORMAP_CURSOR_COLORS !! colormapName).

(** Value of one hexadecimal digit. *)
Definition hex_digit (c : Ascii.ascii) : option Z :=
  let n := Z.of_N (Ascii.N_of_ascii c) in
  if decide (48 ≤ n ≤ 57)%Z then Some (n - 48)%Z
  else if decide (97 ≤ n ≤ 102)%Z then Some (n - 87)%Z
  else if decide (65 ≤ n ≤ 70)%Z then Some (n - 55)%Z
  else None.

(** Python values used by [rgba]: floats with the division [x / 255.], the
    constant [1.] and the test [x >= 0. and x <= 1.]; and [int(s, 16)]
    ([None] for [ValueError]), of which only the value on two hexadecimal
    digits is specified. *)
Class Builtins := {
  pyfloat : Type;
  div255 : Z → pyfloat;
  one : pyfloat;
  in_unit : pyfloat → bool;
  int16 : string → option Z;
  int16_hex a b x y :
    hex_digit a = Some x → hex_digit b = Some y →
    int16 (String a (String b "")) = Some (16 * x + y)%Z
}.

Section WithBuiltins.
Context `{Builtins}.

(** The argument of [rgba]: a string (name or code), or a sequence of four
    integers, or of four floats.  A string of length 4 is not taken for
    such a sequence, its elements being neither integers nor floats. *)
Inductive color :=
  | Name (s : string)
  | Ints (r g b a : Z)
  | Floats (r g b a : pyfloat).

Definition parse16 (s : string) : outcome Z :=
  match int16 s with
  | Some v => Done v
  | None => Fail ValueError
  end.

Definition rgba (color : color) (colorDict : option (gmap string string))
    : outcome (pyfloat * pyfloat * pyfloat * pyfloat) :=
  let colorDict := default COLORDICT colorDict in
  match color with
  | Ints r g b a => Done (div255 r, div255 g, div255 b, div255 a)
  | Floats r g b a =>
      if in_unit r then
        if in_unit g then
          if in_unit b then
            if in_unit a then Done (r, g, b, a)
            else Fail AssertionError
          else Fail AssertionError
        else Fail AssertionError
      else Fail AssertionError
  | Name color =>
      match
        (if String.prefix "#" color then Done color
         else match colorDict !! color with
              | Some code => Done code
              | None => Fail (KeyError color)
              end)
      with
      | Fail e => Fail e
      | Done color =>
          let n := String.length color in
          if bool_decide ((n = 7 ∨ n = 9) ∧ String.get 0 color = String.get 0 "#")
          then
            match parse16 (String.substring 1 2 color) with
            | Fail e => Fail e
            | Done r =>
            match parse16 (String.substring 3 2 color) with
            | Fail e => Fail e
            | Done g =>
            match parse16 (String.substring 5 2 color) with
            | Fail e => Fail e
            | Done b =>
                if bool_decide (n = 9) then
                  match parse16 (String.substring 7 2 color) with
                  | Fail e => Fail e
                  | Done a => Done (div255 r, div255 g, div255 b, div255 a)
                  end
                else Done (div255 r, div255 g, div255 b, one)
            end end end
          else Fail AssertionError
      end
  end.

End WithBuiltins.

(** The channels of a code [#RRGGBB], as integers. *)
Definition code_rgb (code : string) : option (Z * Z * Z) :=
  let digit i := String.get i code ≫= hex_digit in
  if bool_decide (String.length code = 7 ∧ String.prefix "#" code = true)
  then
    x1 ← digit 1; x2 ← digit 2; x3 ← digit 3;
    x4 ← digit 4; x5 ← digit 5; x6 ← digit 6;
    Some (16 * x1 + x2, 16 * x3 + x4, 16 * x5 + x6)%Z
  else None.

(** Value of a string of hexadecimal digits. *)
Fixpoint hex_value (acc : Z) (s : string) : option Z :=
  match s with
  | EmptyString => Some acc
  | String c s' =>
      match hex_digit c with
      | Some d => hex_value (16 * acc + d)%Z s'
      | None => None
      end
  end.

(** An instance to run [rgba]: floats are numerators over 255, [int16]
    reads non-empty strings of hexadecimal digits. *)
#[refine] Definition fractions : Builtins :=
  {| pyfloat := Z;
     div255 := λ x, x;
     one := 255%Z;
     in_unit := λ x, bool_decide (0 ≤ x ≤ 255)%Z;
     int16 := λ s, match s with
                   | EmptyString => None
                   | _ => hex_value 0 s
                   end |}.
Proof.
  intros a b x y Ha Hb. cbn. rewrite Ha, Hb. f_equal; lia.
Defined.

End Colors.

(** * Properties *)

(** ** Arrays *)

Section array_lemmas.
Implicit Types (d : list Z) (pts : list (nat * nat)) (a b : ndarray).

(** Row-major offsets identify the cell. *)
Lemma flat_index_inj (C r c r' c' : nat) :
  c < C → c' < C → r * C + c = r' * C + c' → r = r' ∧ c = c'.
Proof. intros Hc Hc' E. assert (r = r') by nia. subst. lia. Qed.

Lemma setitems_length C pts v d : length (setitems C pts v d) = length d.
Proof.
  unfold setitems. revert d.
  induction pts as [|p pts IH]; intros d; simpl; [done|].
  by rewrite IH, length_insert.
Qed.

Lemma setitems_lookup C pts v d r c :
  c < C → Forall (λ p : nat * nat, p.2 < C) pts →
  setitems C pts v d !! (r * C + c) =
    if decide ((r, c) ∈ pts) then (λ _, v) <$> d !! (r * C + c)
    else d !! (r * C + c).
Proof.
  intros Hc. unfold setitems. revert d.
  induction pts as [|[r' c'] pts IH]; intros d Hpts.
  - cbn [foldl]. case_decide as Hin; [by apply elem_of_nil in Hin|done].
  - apply Forall_cons_1 in Hpts as [Hp Hpts]. cbn [foldl fst snd] in *.
    rewrite IH by done.
    destruct (decide ((r, c) = (r', c'))) as [[= -> ->]|Hne].
    + rewrite (decide_True (P := (r', c') ∈ (r', c') :: pts))
        by (apply elem_of_cons; left; reflexivity).
      destruct (decide (r' * C + c' < length d)) as [Hlt|Hge].
      * rewrite list_lookup_insert_eq by done.
        apply lookup_lt_is_Some_2 in Hlt as [x ->]. by case_decide.
      * rewrite list_insert_ge by lia.
        rewrite (lookup_ge_None_2 d (r' * C + c')) by lia. by case_decide.
    + rewrite list_lookup_insert_ne.
      2:{ intros E. apply flat_index_inj in E as [-> ->]; done. }
      destruct (decide ((r, c) ∈ pts)) as [Hin|Hnin].
      * rewrite decide_True; [done|]. apply elem_of_cons; by right.
      * rewrite decide_False; [done|]. intros [E|E]%elem_of_cons; done.
Qed.

(** The two branches shared by [updatePoints] and [updateRectangle]:
    masking writes [v] on every selected cell, unmasking writes 0 on the
    selected cells that hold [level]. *)
Lemma paint_lookup C pts level v (mask : bool) d r c old :
  c < C → Forall (λ p : nat * nat, p.2 < C) pts →
  d !! (r * C + c) = Some old →
  (if mask then setitems C pts v d
   else setitems C (filter (λ p, items_eq C d level p) pts) 0 d)
    !! (r * C + c)
  = Some (if decide ((r, c) ∈ pts)
          then (if mask then v else if decide (old = level) then 0%Z else old)
          else old).
Proof.
  intros Hc Hpts Hold. destruct mask.
  - rewrite setitems_lookup, Hold by done. by case_decide.
  - rewrite setitems_lookup, Hold.
    2: done.
    2:{ apply list.Forall_forall. intros p [_ Hp]%list_elem_of_filter.
        by eapply list.Forall_forall in Hpts. }
    unfold items_eq.
    destruct (decide ((r, c) ∈ pts)) as [Hin|Hnin].
    + destruct (decide (old = level)) as [->|Hne].
      * rewrite decide_True; [done|]. apply list_elem_of_filter.
        split; [|done]. simpl. by apply bool_decide_pack.
      * rewrite decide_False; [done|]. intros [Hp _]%list_elem_of_filter.
        simpl in Hp. apply bool_decide_unpack in Hp. congruence.
    + rewrite decide_False; [done|]. by intros [_ ?]%list_elem_of_filter.
Qed.

Lemma setitem_mask_lookup sel w d i :
  length sel = length d →
  setitem_mask sel w d !! i =
    (λ x, if default false (sel !! i) then w else x) <$> d !! i.
Proof.
  intros Hlen. unfold setitem_mask. rewrite lookup_zip_with.
  destruct (sel !! i) as [b|] eqn:Hs; simpl.
  - by destruct (d !! i).
  - apply lookup_ge_None in Hs. rewrite lookup_ge_None_2; [done|lia].
Qed.

Lemma setitem_mask_length sel w d :
  length sel = length d → length (setitem_mask sel w d) = length d.
Proof. intros Hlen. unfold setitem_mask. rewrite length_zip_with. lia. Qed.

(** *** [numpy.all(numpy.equal(a, b))] decides element-wise equality *)

Lemma broadcast_rev_diag sh : broadcast_rev sh sh = Some sh.
Proof.
  induction sh as [|x sh IH]; simpl; [done|].
  unfold broadcast_dim. rewrite decide_True by done. by rewrite IH.
Qed.

Lemma broadcast_shapes_diag sh : broadcast_shapes sh sh = Some sh.
Proof.
  unfold broadcast_shapes. rewrite broadcast_rev_diag. simpl.
  by rewrite reverse_involutive.
Qed.

Lemma array_equal_all_equal a b : array_equal a b → all_equal a b = Ok true.
Proof.
  intros [Hsh Hit]. unfold all_equal. rewrite <- Hsh, broadcast_shapes_diag.
  f_equal. apply forallb_forall. intros idx Hin.
  apply Z.eqb_eq, Hit. by apply list_elem_of_In.
Qed.

Lemma all_equal_array_equal a b :
  shape a = shape b → all_equal a b = Ok true → array_equal a b.
Proof.
  intros Hsh. unfold all_equal. rewrite <- Hsh, broadcast_shapes_diag.
  intros [= Hall]. split; [done|]. intros idx Hin.
  apply Z.eqb_eq. eapply forallb_forall in Hall; [done|].
  by apply list_elem_of_In.
Qed.

Lemma array_equal_refl a : array_equal a a.
Proof. by split. Qed.

(** *** Coordinates kept by [updatePoints] *)

Lemma elem_of_valid_cells R C (pts : list (Z * Z)) r c :
  r < R → c < C →
  (r, c) ∈ to_cell <$> filter (in_grid R C) pts
  ↔ (Z.of_nat r, Z.of_nat c) ∈ pts.
Proof.
  intros Hr Hc. rewrite list_elem_of_fmap. split.
  - intros ([z1 z2] & [= -> ->] & [Hg Hin]%list_elem_of_filter).
    unfold in_grid in Hg. simpl in *. by rewrite !Z2Nat.id by lia.
  - intros Hin. exists (Z.of_nat r, Z.of_nat c). split.
    + unfold to_cell. simpl. by rewrite !Nat2Z.id.
    + apply list_elem_of_filter. split; [|done]. unfold in_grid. simpl. lia.
Qed.

Lemma valid_cells_in_range R C (pts : list (Z * Z)) :
  Forall (λ p : nat * nat, p.2 < C) (to_cell <$> filter (in_grid R C) pts).
Proof.
  apply list.Forall_forall.
  intros p ([z1 z2] & -> & [Hg _]%list_elem_of_filter)%list_elem_of_fmap.
  unfold in_grid in Hg. simpl in *. lia.
Qed.

End array_lemmas.

(** ** Running the drawing methods *)

Lemma updatePoints_run level rows cols mask s R C :
  shape (_mask s) = [R; C] → length rows = length cols →
  updatePoints level rows cols mask s =
    Ok (tt,
        set_mask
          {| shape := [R; C];
             data :=
               let valid := to_cell <$> filter (in_grid R C) (zip rows cols) in
               let d := data (_mask s) in
               if mask then setitems C valid (to_uint8 level) d
               else setitems C (filter (λ p, items_eq C d level p) valid) 0 d |}
          s,
        [sigChanged]).
Proof.
  intros Hsh Hlen. unfold updatePoints, mbind, M_bind, get_self, when.
  rewrite !bool_decide_false by tauto.
  rewrite Hsh. reflexivity.
Qed.

Lemma getitem_Some a R C r c v :
  shape a = [R; C] →
  getitem a r c = Some v ↔ r < R ∧ c < C ∧ data a !! (r * C + c) = Some v.
Proof.
  intros Hsh. unfold getitem. rewrite Hsh. case_decide as Hrc.
  - split; [intros ?; by destruct Hrc|by intros (_ & _ & ?)].
  - split; [done|]. intros (? & ? & _). by destruct Hrc.
Qed.

Lemma to_uint8_level level : (1 ≤ level ≤ 255)%Z → to_uint8 level = level.
Proof. intros Hl. unfold to_uint8. apply Z.mod_small. lia. Qed.

Lemma valid_level_true level : (1 ≤ level ≤ 255)%Z → valid_level level = true.
Proof. intros Hl. unfold valid_level. apply bool_decide_eq_true. lia. Qed.

(** Effect of [updatePoints] on every cell of a 2D grid. *)
Lemma updatePoints_cells s R C level rows cols mask :
  shape (_mask s) = [R; C] → (1 ≤ level ≤ 255)%Z → length rows = length cols →
  ∃ s',
    updatePoints level rows cols mask s = Ok (tt, s', [sigChanged]) ∧
    s' = set_mask (_mask s') s ∧
    shape (_mask s') = [R; C] ∧
    length (data (_mask s')) = length (data (_mask s)) ∧
    ∀ r c old, getitem (_mask s) r c = Some old →
      getitem (_mask s') r c =
        Some (if decide ((Z.of_nat r, Z.of_nat c) ∈ zip rows cols)
              then (if mask then level
                    else if decide (old = level) then 0%Z else old)
              else old).
Proof.
  intros Hsh Hl Hlen. eexists. split; [by apply updatePoints_run|].
  split; [reflexivity|]. split; [reflexivity|]. split.
  { cbn. destruct mask; apply setitems_length. }
  intros r c old (Hr & Hc & Hold)%(getitem_Some _ R C); [|done].
  apply (getitem_Some _ R C); [done|]. split; [done|]. split; [done|].
  cbn. rewrite (paint_lookup _ _ _ _ _ _ _ _ old); [|done|apply valid_cells_in_range|done].
  rewrite to_uint8_level by done. f_equal.
  apply decide_ext. by apply elem_of_valid_cells.
Qed.

(** *** Slices *)

Lemma elem_of_slice_indices start stop n i :
  i ∈ slice_indices start stop n ↔
  (slice_bound start n ≤ Z.of_nat i < slice_bound stop n)%Z.
Proof.
  unfold slice_indices. rewrite elem_of_seq.
  assert (0 ≤ slice_bound start n)%Z by (unfold slice_bound; case_match; lia).
  lia.
Qed.

Lemma slice_indices_lt start stop n i : i ∈ slice_indices start stop n → i < n.
Proof.
  intros Hi%elem_of_slice_indices.
  assert (slice_bound stop n ≤ Z.of_nat n)%Z by (unfold slice_bound; case_match; lia).
  lia.
Qed.

Lemma elem_of_view_cells r0 r1 c0 c1 R C r c :
  (r, c) ∈ view_cells r0 r1 c0 c1 R C ↔
  r ∈ slice_indices r0 r1 R ∧ c ∈ slice_indices c0 c1 C.
Proof.
  unfold view_cells. rewrite list_elem_of_bind. split.
  - intros (r' & Hc' & Hr'). apply list_elem_of_fmap in Hc' as (c' & E & Hc').
    by injection E as -> ->.
  - intros [Hr Hc]. exists r. split; [|done]. apply list_elem_of_fmap. eauto.
Qed.

Lemma view_cells_in_range r0 r1 c0 c1 R C :
  Forall (λ p : nat * nat, p.2 < C) (view_cells r0 r1 c0 c1 R C).
Proof.
  apply list.Forall_forall. intros [r c] [_ Hc]%elem_of_view_cells.
  by eapply slice_indices_lt.
Qed.

Lemma updateRectangle_run level row col height width mask s R C :
  shape (_mask s) = [R; C] → (1 ≤ level ≤ 255)%Z →
  updateRectangle level row col height width mask s =
    Ok (tt,
        set_mask
          {| shape := [R; C];
             data :=
               let selection :=
                 view_cells (Z.max 0 row) (row + height + 1)
                            (Z.max 0 col) (col + width + 1) R C in
               let d := data (_mask s) in
               if mask then setitems C selection level d
               else setitems C (filter (λ p, items_eq C d level p) selection)
                             0 d |}
          s,
        [sigChanged]).
Proof.
  intros Hsh Hl.
  unfold updateRectangle, mbind, M_bind, get_self, assert.
  rewrite valid_level_true by done. cbn. rewrite Hsh. reflexivity.
Qed.

(** Effect of [updateRectangle] on every cell: the selected cells are those
    of the view [max(0,row):row+height+1, max(0,col):col+width+1]. *)
Lemma updateRectangle_cells s R C level row col height width mask :
  shape (_mask s) = [R; C] → (1 ≤ level ≤ 255)%Z →
  ∃ s',
    updateRectangle level row col height width mask s
      = Ok (tt, s', [sigChanged]) ∧
    s' = set_mask (_mask s') s ∧
    shape (_mask s') = [R; C] ∧
    ∀ r c old, getitem (_mask s) r c = Some old →
      getitem (_mask s') r c =
        Some (if decide (r ∈ slice_indices (Z.max 0 row) (row + height + 1) R ∧
                         c ∈ slice_indices (Z.max 0 col) (col + width + 1) C)
              then (if mask then level
                    else if decide (old = level) then 0%Z else old)
              else old).
Proof.
  intros Hsh Hl. eexists. split; [by apply updateRectangle_run|].
  split; [reflexivity|]. split; [reflexivity|].
  intros r c old (Hr & Hc & Hold)%(getitem_Some _ R C); [|done].
  apply (getitem_Some _ R C); [done|]. split; [done|]. split; [done|].
  cbn. rewrite (paint_lookup _ _ _ _ _ _ _ _ old); [|done|apply view_cells_in_range|done].
  f_equal. apply decide_ext, elem_of_view_cells.
Qed.

(** When the stop bounds [row+height+1] and [col+width+1] are not negative,
    the view of [updateRectangle] is the rectangle cropped to the grid, with
    inclusive upper bounds. *)
Lemma slice_indices_cropped start len n i :
  (0 ≤ start + len + 1)%Z →
  i ∈ slice_indices (Z.max 0 start) (start + len + 1) n ↔
  (Z.max 0 start ≤ Z.of_nat i ≤ start + len)%Z ∧ i < n.
Proof.
  intros Hstop. rewrite elem_of_slice_indices. unfold slice_bound.
  destruct (Z.ltb_spec (Z.max 0 start) 0), (Z.ltb_spec (start + len + 1) 0); lia.
Qed.

(** A negative stop bound counts from the end of the axis. *)
Lemma slice_indices_negative_stop start len n i :
  (start + len + 1 < 0)%Z →
  i ∈ slice_indices (Z.max 0 start) (start + len + 1) n ↔
  (Z.max 0 start ≤ Z.of_nat i < Z.of_nat n + (start + len + 1))%Z.
Proof.
  intros Hstop. rewrite elem_of_slice_indices. unfold slice_bound.
  destruct (Z.ltb_spec (Z.max 0 start) 0), (Z.ltb_spec (start + len + 1) 0); lia.
Qed.

Lemma invert_run level s :
  (1 ≤ level ≤ 255)%Z →
  invert level s =
    Ok (tt,
        set_mask
          {| shape := shape (_mask s);
             data :=
               let d := data (_mask s) in
               setitem_mask (eq_scalar level d) 0
                 (setitem_mask (eq_scalar 0 d) level d) |}
          s,
        [sigChanged]).
Proof.
  intros Hl. unfold invert, mbind, M_bind, get_self, assert.
  rewrite valid_level_true by done. reflexivity.
Qed.

Lemma invert_lookup level d i old :
  d !! i = Some old →
  setitem_mask (eq_scalar level d) 0 (setitem_mask (eq_scalar 0 d) level d) !! i
  = Some (if decide (old = level) then 0%Z
          else if decide (old = 0%Z) then level else old).
Proof.
  intros Hold. unfold eq_scalar.
  rewrite setitem_mask_lookup
    by (rewrite setitem_mask_length; by rewrite length_fmap).
  rewrite setitem_mask_lookup by by rewrite length_fmap.
  rewrite !list_lookup_fmap, Hold. cbn.
  repeat case_bool_decide; repeat case_decide; congruence.
Qed.

(** ** Region updates *)

(** C1. Masking is last-writer-wins and unmasking is level-scoped.  On a 2D
    grid and for a level in [1,255]: [updatePoints] with in-bounds points and
    [updateRectangle] return normally, and for every cell of the grid
    - with [mask=True] a selected cell becomes [level] whatever it held;
    - with [mask=False] a selected cell becomes 0 when it held [level];
    - with [mask=False] a cell holding another label keeps it;
    - a cell that is not selected keeps its label.
    On the empty 5x5 grid, masking level 3 then unmasking level 5 on the
    rectangle [(0,0,1,1)] leaves cell (0,0) at 3. *)
Theorem mask_overwrites_unmask_is_level_scoped :
  (∀ s R C level rows cols mask,
     shape (_mask s) = [R; C] → (1 ≤ level ≤ 255)%Z →
     length rows = length cols → Forall (in_grid R C) (zip rows cols) →
     ∃ s', updatePoints level rows cols mask s = Ok (tt, s', [sigChanged]) ∧
       ∀ r c old, getitem (_mask s) r c = Some old →
         ∃ new, getitem (_mask s') r c = Some new ∧
           let selected := (Z.of_nat r, Z.of_nat c) ∈ zip rows cols in
           (selected → mask = true → new = level) ∧
           (selected → mask = false → old = level → new = 0%Z) ∧
           (mask = false → old ≠ level → new = old) ∧
           (¬ selected → new = old)) ∧
  (∀ s R C level row col height width mask,
     shape (_mask s) = [R; C] → (1 ≤ level ≤ 255)%Z →
     ∃ s', updateRectangle level row col height width mask s
             = Ok (tt, s', [sigChanged]) ∧
       ∀ r c old, getitem (_mask s) r c = Some old →
         ∃ new, getitem (_mask s') r c = Some new ∧
           let selected :=
             r ∈ slice_indices (Z.max 0 row) (row + height + 1) R ∧
             c ∈ slice_indices (Z.max 0 col) (col + width + 1) C in
           (selected → mask = true → new = level) ∧
           (selected → mask = false → old = level → new = 0%Z) ∧
           (mask = false → old ≠ level → new = old) ∧
           (¬ selected → new = old)) ∧
  (∃ s0 s1 s2 ev,
     reset (Some [5; 5]%Z) Mask_init = Ok (tt, s0, ev) ∧
     _mask s0 = zeros [5; 5] ∧
     updateRectangle 3 0 0 1 1 true s0 = Ok (tt, s1, [sigChanged]) ∧
     updateRectangle 5 0 0 1 1 false s1 = Ok (tt, s2, [sigChanged]) ∧
     getitem (_mask s1) 0 0 = Some 3%Z ∧
     getitem (_mask s2) 0 0 = Some 3%Z).
Proof.
  split; [|split].
  - intros s R C level rows cols mask Hsh Hl Hlen _.
    destruct (updatePoints_cells s R C level rows cols mask)
      as (s' & Hrun & _ & _ & _ & Hcells); [done..|].
    exists s'. split; [done|]. intros r c old Hold.
    eexists. split; [by apply Hcells|]. cbn.
    destruct mask; repeat case_decide; repeat split; intros; congruence.
  - intros s R C level row col height width mask Hsh Hl.
    destruct (updateRectangle_cells s R C level row col height width mask)
      as (s' & Hrun & _ & _ & Hcells); [done..|].
    exists s'. split; [done|]. intros r c old Hold.
    eexists. split; [by apply Hcells|]. cbn.
    destruct mask; repeat case_decide; repeat split; intros; congruence.
  - do 4 eexists. repeat split; reflexivity.
Qed.

(** The general statements of C1 at concrete inputs: one masked point on a
    2x2 grid holding level 7, and a 1x1 rectangle unmasked on it. *)
Lemma mask_overwrites_unmask_is_level_scoped_witness :
  let s := set_mask {| shape := [2; 2]; data := [7; 0; 0; 0]%Z |} Mask_init in
  (∃ s', updatePoints 3 [0%Z] [0%Z] true s = Ok (tt, s', [sigChanged]) ∧
     ∀ r c old, getitem (_mask s) r c = Some old →
       ∃ new, getitem (_mask s') r c = Some new ∧
         let selected := (Z.of_nat r, Z.of_nat c) ∈ zip [0%Z] [0%Z] in
         (selected → true = true → new = 3%Z) ∧
         (selected → true = false → old = 3%Z → new = 0%Z) ∧
         (true = false → old ≠ 3%Z → new = old) ∧
         (¬ selected → new = old)) ∧
  (∃ s', updateRectangle 5 0 0 0 0 false s = Ok (tt, s', [sigChanged]) ∧
     ∀ r c old, getitem (_mask s) r c = Some old →
       ∃ new, getitem (_mask s') r c = Some new ∧
         let selected :=
           r ∈ slice_indices (Z.max 0 0) (0 + 0 + 1) 2 ∧
           c ∈ slice_indices (Z.max 0 0) (0 + 0 + 1) 2 in
         (selected → false = true → new = 5%Z) ∧
         (selected → false = false → old = 5%Z → new = 0%Z) ∧
         (false = false → old ≠ 5%Z → new = old) ∧
         (¬ selected → new = old)).
Proof.
  intros s. split.
  - apply (proj1 mask_overwrites_unmask_is_level_scoped s 2 2 3%Z
             [0%Z] [0%Z] true); [reflexivity|lia|reflexivity|].
    repeat constructor; unfold in_grid; simpl; lia.
  - apply (proj1 (proj2 mask_overwrites_unmask_is_level_scoped) s 2 2 5%Z
             0%Z 0%Z 0%Z 0%Z false); [reflexivity|lia].
Defined.

(** C4. Out-of-bounds coordinates are discarded.  On a 2D grid of shape
    [(R, C)], for a level in [1,255] and coordinate arrays of one length,
    [updatePoints] returns normally; the pairs it keeps are exactly those
    that are not out of bounds ([row < 0], [col < 0], [row >= R] or
    [col >= C]); the result is the one obtained from the kept pairs alone;
    and a cell changes only if a kept pair names it.  On the empty 5x5 grid,
    [updatePoints(1, [-1,0,10], [0,0,0], True)] sets cell (0,0) only. *)
Theorem updatePoints_discards_out_of_bounds :
  (∀ s R C level rows cols mask,
     shape (_mask s) = [R; C] → (1 ≤ level ≤ 255)%Z →
     length rows = length cols →
     let kept := filter (in_grid R C) (zip rows cols) in
     (∀ p, p ∈ kept ↔
           p ∈ zip rows cols ∧
           ¬ (p.1 < 0 ∨ p.2 < 0 ∨ Z.of_nat R ≤ p.1 ∨ Z.of_nat C ≤ p.2)%Z) ∧
     ∃ s',
       updatePoints level rows cols mask s = Ok (tt, s', [sigChanged]) ∧
       updatePoints level kept.*1 kept.*2 mask s = Ok (tt, s', [sigChanged]) ∧
       shape (_mask s') = [R; C] ∧
       length (data (_mask s')) = length (data (_mask s)) ∧
       ∀ r c old, getitem (_mask s) r c = Some old →
         getitem (_mask s') r c =
           Some (if decide ((Z.of_nat r, Z.of_nat c) ∈ kept)
                 then (if mask then level
                       else if decide (old = level) then 0%Z else old)
                 else old)) ∧
  (∃ s0 s1 ev,
     reset (Some [5; 5]%Z) Mask_init = Ok (tt, s0, ev) ∧
     _mask s0 = zeros [5; 5] ∧
     updatePoints 1 [-1; 0; 10]%Z [0; 0; 0]%Z true s0
       = Ok (tt, s1, [sigChanged]) ∧
     _mask s1 = {| shape := [5; 5]; data := <[0 := 1%Z]> (replicate 25 0%Z) |}).
Proof.
  split.
  - intros s R C level rows cols mask Hsh Hl Hlen kept. split.
    { intros p. subst kept. rewrite list_elem_of_filter. unfold in_grid.
      split; intros [? ?]; split; (done || lia). }
    destruct (updatePoints_cells s R C level rows cols mask)
      as (s' & Hrun & _ & Hsh' & Hlen' & Hcells); [done..|].
    exists s'. split; [done|]. split; [|split; [done|split; [done|]]].
    + rewrite (updatePoints_run _ _ _ _ _ R C) in Hrun by done.
      rewrite (updatePoints_run _ _ _ _ _ R C)
        by (done || by rewrite !length_fmap).
      rewrite zip_fst_snd. subst kept.
      rewrite (list_filter_filter_r (in_grid R C) (in_grid R C)) by done.
      exact Hrun.
    + intros r c old Hold. rewrite (Hcells r c old Hold). f_equal.
      apply (getitem_Some _ R C) in Hold as (Hr & Hc & _); [|done].
      apply decide_ext. subst kept. rewrite list_elem_of_filter.
      unfold in_grid. simpl. split; [|tauto]. intros Hin. split; [lia|done].
  - do 3 eexists. repeat split; reflexivity.
Qed.

Lemma updatePoints_discards_out_of_bounds_witness :
  let s := set_mask (zeros [2; 3]) Mask_init in
  let kept := filter (in_grid 2 3) (zip [-1; 1; 1]%Z [0; 3; 2]%Z) in
  (∀ p, p ∈ kept ↔
        p ∈ zip [-1; 1; 1]%Z [0; 3; 2]%Z ∧
        ¬ (p.1 < 0 ∨ p.2 < 0 ∨ Z.of_nat 2 ≤ p.1 ∨ Z.of_nat 3 ≤ p.2)%Z) ∧
  ∃ s',
    updatePoints 4 [-1; 1; 1]%Z [0; 3; 2]%Z true s
      = Ok (tt, s', [sigChanged]) ∧
    updatePoints 4 kept.*1 kept.*2 true s = Ok (tt, s', [sigChanged]) ∧
    shape (_mask s') = [2; 3] ∧
    length (data (_mask s')) = length (data (_mask s)) ∧
    ∀ r c old, getitem (_mask s) r c = Some old →
      getitem (_mask s') r c =
        Some (if decide ((Z.of_nat r, Z.of_nat c) ∈ kept)
              then (if true then 4%Z
                    else if decide (old = 4%Z) then 0%Z else old)
              else old).
Proof.
  intros s.
  apply (proj1 updatePoints_discards_out_of_bounds s 2 3 4%Z
           [-1; 1; 1]%Z [0; 3; 2]%Z true); [reflexivity|lia|reflexivity].
Defined.

(** C5. [invert(level)] swaps the labels 0 and [level] and touches no other
    label; it returns normally for every level in [1,255] and keeps the
    shape, the history and the redo list. *)
Theorem invert_swaps_zero_and_level s level :
  (1 ≤ level ≤ 255)%Z →
  ∃ s',
    invert level s = Ok (tt, s', [sigChanged]) ∧
    shape (_mask s') = shape (_mask s) ∧
    _history s' = _history s ∧ _redo s' = _redo s ∧
    ∀ r c old, getitem (_mask s) r c = Some old →
      ∃ new, getitem (_mask s') r c = Some new ∧
        (old = 0%Z → new = level) ∧
        (old = level → new = 0%Z) ∧
        (old ≠ 0%Z → old ≠ level → new = old).
Proof.
  intros Hl. eexists. split; [by apply invert_run|].
  split; [reflexivity|]. split; [reflexivity|]. split; [reflexivity|].
  intros r c old Hold. unfold getitem in *. cbn.
  destruct (shape (_mask s)) as [|R [|C [|]]]; try done.
  case_decide; [|done].
  eexists. split; [by apply invert_lookup|].
  repeat case_decide; repeat split; intros; (congruence || lia).
Qed.

Lemma invert_swaps_zero_and_level_witness :
  let s := set_mask {| shape := [1; 3]; data := [0; 2; 7]%Z |} Mask_init in
  ∃ s',
    invert 2 s = Ok (tt, s', [sigChanged]) ∧
    shape (_mask s') = shape (_mask s) ∧
    _history s' = _history s ∧ _redo s' = _redo s ∧
    ∀ r c old, getitem (_mask s) r c = Some old →
      ∃ new, getitem (_mask s') r c = Some new ∧
        (old = 0%Z → new = 2%Z) ∧
        (old = 2%Z → new = 0%Z) ∧
        (old ≠ 0%Z → old ≠ 2%Z → new = old).
Proof.
  intros s. apply (invert_swaps_zero_and_level s 2%Z). lia.
Defined.

(** Rectangle coverage when both stop bounds are non-negative: with
    [mask=True] exactly the cells of the grid with
    [max(0,row) <= r <= row+height] and [max(0,col) <= c <= col+width] are
    set to [level]; a rectangle straddling an edge is cropped. *)
Lemma updateRectangle_cropped s R C level row col height width :
  shape (_mask s) = [R; C] → (1 ≤ level ≤ 255)%Z →
  (0 ≤ row + height + 1)%Z → (0 ≤ col + width + 1)%Z →
  ∃ s',
    updateRectangle level row col height width true s
      = Ok (tt, s', [sigChanged]) ∧
    shape (_mask s') = [R; C] ∧
    ∀ r c old, getitem (_mask s) r c = Some old →
      getitem (_mask s') r c =
        Some (if decide ((Z.max 0 row ≤ Z.of_nat r ≤ row + height)%Z ∧
                         (Z.max 0 col ≤ Z.of_nat c ≤ col + width)%Z)
              then level else old).
Proof.
  intros Hsh Hl Hrow Hcol.
  destruct (updateRectangle_cells s R C level row col height width true)
    as (s' & Hrun & _ & Hsh' & Hcells); [done..|].
  exists s'. split; [done|]. split; [done|].
  intros r c old Hold. rewrite (Hcells r c old Hold). f_equal.
  apply (getitem_Some _ R C) in Hold as (Hr & Hc & _); [|done].
  apply decide_ext. rewrite !slice_indices_cropped by done. tauto.
Qed.

(** C9 fails on the code when a stop bound is negative.  The rectangle
    [row=-5, height=2] covers rows -5..-3 only, all above the 5x5 grid, yet
    the slice [0:-2] selects rows 0, 1 and 2: cell (0,0) is painted. *)
Theorem updateRectangle_negative_stop_wraps :
  ∃ s0 s1 ev,
    reset (Some [5; 5]%Z) Mask_init = Ok (tt, s0, ev) ∧
    _mask s0 = zeros [5; 5] ∧
    updateRectangle 1 (-5) 0 2 0 true s0 = Ok (tt, s1, [sigChanged]) ∧
    (∀ r : nat, ¬ (Z.max 0 (-5) ≤ Z.of_nat r ≤ -5 + 2)%Z) ∧
    _mask s1 =
      {| shape := [5; 5];
         data := [1; 0; 0; 0; 0;  1; 0; 0; 0; 0;  1; 0; 0; 0; 0;
                  0; 0; 0; 0; 0;  0; 0; 0; 0; 0]%Z |} ∧
    getitem (_mask s0) 0 0 = Some 0%Z ∧
    getitem (_mask s1) 0 0 = Some 1%Z.
Proof.
  do 3 eexists. repeat split; try reflexivity. intros r. lia.
Qed.

(** ** What a call that returned did to the object *)

Lemma bind_Ok {A B} (m : M A) (f : A → M B) s b s' ev :
  (m ≫= f) s = Ok (b, s', ev) →
  ∃ a s1 ev1 ev2,
    m s = Ok (a, s1, ev1) ∧ f a s1 = Ok (b, s', ev2) ∧ ev = ev1 ++ ev2.
Proof.
  unfold mbind, M_bind. destruct (m s) as [[[a s1] ev1]|]; [|done].
  destruct (f a s1) as [[[b' s2] ev2]|] eqn:E; [|done].
  intros [= -> -> <-]. by exists a, s1, ev1, ev2.
Qed.

Lemma lift_Ok {A} (r : result A) s a s' ev :
  lift r s = Ok (a, s', ev) → r = Ok a ∧ s' = s ∧ ev = [].
Proof. unfold lift. destruct r; [|done]. by intros [= -> -> <-]. Qed.

Lemma clear_inv level s s' ev :
  clear level s = Ok (tt, s', ev) → only_mask s s'.
Proof.
  intros H. unfold clear in H. monad_inv H.
  injection H as <- <-. eexists. split; reflexivity.
Qed.

Lemma invert_inv level s s' ev :
  invert level s = Ok (tt, s', ev) → only_mask s s'.
Proof.
  intros H. unfold invert in H. monad_inv H.
  injection H as <- <-. eexists. split; reflexivity.
Qed.

Lemma updateRectangle_inv level row col height width mask s s' ev :
  updateRectangle level row col height width mask s = Ok (tt, s', ev) → only_mask s s'.
Proof.
  intros H. unfold updateRectangle in H. monad_inv H.
  injection H as <- <-. eexists. split; [reflexivity|]. by cbn. 
Qed.

Lemma updatePoints_inv level rows cols mask s s' ev :
  updatePoints level rows cols mask s = Ok (tt, s', ev) → only_mask s s'.
Proof.
  intros H. unfold updatePoints in H. monad_inv H.
  injection H as <- <-. eexists. split; [reflexivity|]. by cbn. 
Qed.

Lemma updateStencil_inv level stencil mask s s' ev :
  updateStencil level stencil mask s = Ok (tt, s', ev) → only_mask s s'.
Proof.
  intros ([rows cols] & s1 & ev1 & ev2 & (_ & -> & _)%lift_Ok & H & _)%bind_Ok.
  by eapply updatePoints_inv.
Qed.

Lemma setMask_inv mask s s' ev :
  setMask mask s = Ok (tt, s', ev) →
  length (shape mask) = 2 ∧ s' = set_mask (astype_uint8 mask) s.
Proof.
  intros H. unfold setMask in H. monad_inv H.
  injection H as <- <-. split; [|done]. by eapply bool_decide_eq_true.
Qed.

Lemma resetHistory_run s :
  resetHistory s =
    Ok (tt, {| historyDepth := historyDepth s; _mask := _mask s;
               _history := [_mask s]; _redo := [] |},
        [sigUndoable false; sigRedoable false]).
Proof. reflexivity. Qed.

Lemma list_pop_snoc {A} (l : list A) x : list_pop (l ++ [x]) = Ok (x, l).
Proof. unfold list_pop. by rewrite last_snoc, removelast_last. Qed.

Lemma list_top_snoc {A} (l : list A) x : list_top (l ++ [x]) = Ok x.
Proof. unfold list_top. by rewrite last_snoc. Qed.

Lemma undo_short s : length (_history s) ≤ 1 → undo s = Ok (tt, s, []).
Proof.
  intros Hlen. unfold undo. unfold_monad.
  rewrite bool_decide_false by lia. reflexivity.
Qed.

Lemma undo_snoc s h prev top :
  _history s = h ++ [prev; top] →
  ∃ ev,
    undo s =
      Ok (tt, {| historyDepth := historyDepth s; _mask := prev;
                 _history := h ++ [prev]; _redo := _redo s ++ [top] |},
          sigChanged :: ev).
Proof.
  intros Hh. unfold undo. unfold_monad. rewrite Hh.
  rewrite bool_decide_true by (rewrite length_app; simpl; lia).
  replace (h ++ [prev; top]) with ((h ++ [prev]) ++ [top])
    by by rewrite <- app_assoc.
  rewrite list_pop_snoc. cbn. rewrite list_top_snoc. cbn.
  repeat case_bool_decide; eexists; reflexivity.
Qed.

Lemma redo_nil s : _redo s = [] → redo s = Ok (tt, s, []).
Proof.
  intros Hr. unfold redo. unfold_monad. rewrite Hr.
  rewrite bool_decide_false by (intros ?; done). reflexivity.
Qed.

Lemma redo_snoc s r top :
  _redo s = r ++ [top] →
  ∃ ev,
    redo s =
      Ok (tt, {| historyDepth := historyDepth s; _mask := top;
                 _history := _history s ++ [top]; _redo := r |},
          sigChanged :: ev).
Proof.
  intros Hr. unfold redo. unfold_monad. rewrite Hr.
  rewrite bool_decide_true by (by destruct r).
  rewrite list_pop_snoc. cbn.
  repeat case_bool_decide; eexists; reflexivity.
Qed.

(** ** History *)

Lemma evict_length depth h h' :
  evict depth h = Ok h' →
  (Z.of_nat (length h') < depth)%Z ∧ length h' ≤ length h.
Proof.
  induction h as [|a h IH]; cbn [evict].
  - destruct (Z.geb_spec 0 depth); [done|]. intros [= <-]. simpl. lia.
  - destruct (Z.geb_spec (Z.of_nat (length (a :: h))) depth) as [Hge|Hlt].
    + intros [Hd Hl]%IH. simpl. lia.
    + intros [= <-]. lia.
Qed.

Lemma evict_elem_of depth h h' a : evict depth h = Ok h' → a ∈ h' → a ∈ h.
Proof.
  induction h as [|x h IH]; cbn [evict].
  - case_match; [done|]. by intros [= <-].
  - case_match.
    + intros Hev Hin. apply elem_of_cons. right. by apply IH.
    + by intros [= <-].
Qed.

(** With a positive depth the eviction loop terminates normally. *)
Lemma evict_returns depth h : (0 < depth)%Z → ∃ h', evict depth h = Ok h'.
Proof.
  intros Hd. induction h as [|x h IH]; cbn [evict].
  - destruct (Z.geb_spec 0 depth); [lia|]. by eexists.
  - case_match; [done|]. by eexists.
Qed.

Lemma commit_noop s top :
  list.last (_history s) = Some top → _redo s = [] →
  all_equal (_mask s) top = Ok true →
  commit s = Ok (tt, s, []).
Proof.
  intros Hlast Hredo Heq. unfold commit. unfold_monad.
  rewrite Hlast, Hredo, Heq. reflexivity.
Qed.

Lemma commit_inv s s' ev :
  commit s = Ok (tt, s', ev) →
  (s' = s ∧ ev = [] ∧ _history s ≠ [] ∧ _redo s = []) ∨
  (∃ h, evict (historyDepth s) (_history s) = Ok h ∧
        s' = {| historyDepth := historyDepth s; _mask := _mask s;
                _history := h ++ [_mask s]; _redo := [] |}).
Proof.
  unfold commit. unfold_monad. intros Hc.
  destruct (list.last (_history s)) as [top|] eqn:Hlast;
    [destruct (_redo s) as [|x r] eqn:Hredo;
      [destruct (all_equal (_mask s) top) as [[]|] eqn:Heq|]|];
    cbn in Hc; try discriminate Hc.
  1:{ injection Hc as <- <-. left. repeat split.
      intros Hnil. by rewrite Hnil in Hlast. }
  all: try (destruct (_redo s) as [|x r] eqn:Hredo).
  all: cbn in Hc; destruct (evict _ _) as [h|] eqn:Hev; cbn in Hc;
    repeat (case_bool_decide; cbn in Hc); try done.
  all: right; exists h; split; [done|].
  all: unfold mret, M_ret in Hc; cbn in Hc; injection Hc as <- <-;
    unfold set_history, set_redo; cbn; by rewrite ?Hredo.
Qed.

Lemma list_snoc2_cases {A} (l : list A) :
  length l ≤ 1 ∨ ∃ h a b, l = h ++ [a; b].
Proof.
  destruct l as [|b l _] using rev_ind; [left; simpl; lia|].
  destruct l as [|a l _] using rev_ind; [left; simpl; lia|].
  right. exists l, a, b. by rewrite <- app_assoc.
Qed.

Lemma undo_inv s s' ev :
  undo s = Ok (tt, s', ev) →
  (length (_history s) ≤ 1 ∧ s' = s ∧ ev = []) ∨
  (∃ h prev top,
     _history s = h ++ [prev; top] ∧
     s' = {| historyDepth := historyDepth s; _mask := prev;
             _history := h ++ [prev]; _redo := _redo s ++ [top] |}).
Proof.
  intros Hu. destruct (list_snoc2_cases (_history s)) as [Hlen|(h & a & b & Hh)].
  - left. rewrite undo_short in Hu by done. by injection Hu as <- <-.
  - right. destruct (undo_snoc s h a b Hh) as [ev' Hrun].
    rewrite Hrun in Hu. injection Hu as <- <-. by exists h, a, b.
Qed.

Lemma redo_inv s s' ev :
  redo s = Ok (tt, s', ev) →
  (_redo s = [] ∧ s' = s ∧ ev = []) ∨
  (∃ r top,
     _redo s = r ++ [top] ∧
     s' = {| historyDepth := historyDepth s; _mask := top;
             _history := _history s ++ [top]; _redo := r |}).
Proof.
  intros Hr. destruct (_redo s) as [|top r _] eqn:Hredo using rev_ind.
  - left. rewrite redo_nil in Hr by done. by injection Hr as <- <-.
  - right. destruct (redo_snoc s r top Hredo) as [ev' Hrun].
    rewrite Hrun in Hr. injection Hr as <- <-. by exists r, top.
Qed.

(** [undo] and [redo] never raise. *)
Lemma undo_returns s : ∃ s' ev, undo s = Ok (tt, s', ev).
Proof.
  destruct (list_snoc2_cases (_history s)) as [Hlen|(h & a & b & Hh)].
  - exists s, []. by apply undo_short.
  - destruct (undo_snoc s h a b Hh) as [ev Hrun]. eauto.
Qed.

Lemma array_equal_sym a b : array_equal a b → array_equal b a.
Proof.
  intros [Hsh Hit]. split; [done|]. intros idx Hidx. symmetry. apply Hit.
  by rewrite Hsh.
Qed.

(** C2, as amended.  From every state whose history holds at least two
    snapshots, [undo()] then [redo()] both return, restore the history and
    the redo list exactly (hence their lengths), and leave as grid the last
    committed snapshot [history[-1]]; the grid is element-wise equal to the
    grid before the undo whenever that grid had no uncommitted edit. *)
Theorem undo_redo_roundtrip s :
  2 ≤ length (_history s) →
  ∃ top s1 s2 ev1 ev2,
    list.last (_history s) = Some top ∧
    undo s = Ok (tt, s1, ev1) ∧
    redo s1 = Ok (tt, s2, ev2) ∧
    _history s2 = _history s ∧
    _redo s2 = _redo s ∧
    _mask s2 = top ∧
    (array_equal (_mask s) top → array_equal (_mask s2) (_mask s)) ∧
    (_mask s = top → s2 = s).
Proof.
  intros Hlen.
  destruct (list_snoc2_cases (_history s)) as [?|(h & prev & top & Hh)]; [lia|].
  destruct (undo_snoc s h prev top Hh) as [ev1 Hundo].
  set (s1 := {| historyDepth := historyDepth s; _mask := prev;
                _history := h ++ [prev]; _redo := _redo s ++ [top] |}) in *.
  destruct (redo_snoc s1 (_redo s) top eq_refl) as [ev2 Hredo].
  exists top. do 4 eexists.
  split; [|split; [exact Hundo|split; [exact Hredo|]]].
  - rewrite Hh. replace (h ++ [prev; top]) with ((h ++ [prev]) ++ [top])
      by by rewrite <- app_assoc.
    apply last_snoc.
  - cbn. rewrite Hh, <- app_assoc. split; [done|]. split; [done|].
    split; [done|]. split.
    + intros Heq. by apply array_equal_sym.
    + intros <-. destruct s. cbn in *. by rewrite Hh.
Qed.

Lemma undo_redo_roundtrip_witness :
  let a0 := zeros [1; 1] in
  let a1 := {| shape := [1; 1]; data := [1%Z] |} in
  let s := {| historyDepth := 10; _mask := a1;
              _history := [a0; a1]; _redo := [] |} in
  ∃ top s1 s2 ev1 ev2,
    list.last (_history s) = Some top ∧
    undo s = Ok (tt, s1, ev1) ∧
    redo s1 = Ok (tt, s2, ev2) ∧
    _history s2 = _history s ∧
    _redo s2 = _redo s ∧
    _mask s2 = top ∧
    (array_equal (_mask s) top → array_equal (_mask s2) (_mask s)) ∧
    (_mask s = top → s2 = s).
Proof.
  intros a0 a1 s. apply (undo_redo_roundtrip s). simpl. lia.
Defined.

(** C2 as stated fails: an edit that was not committed is lost by
    [undo(); redo()].  After [reset((1,1))], masking (0,0) at level 1,
    [commit()], then masking (0,0) at level 2 without commit, the history
    has two snapshots and the round trip leaves 1 in the cell, not 2. *)
Lemma undo_redo_loses_uncommitted_edit :
  ∃ s s' ev ev',
    (reset (Some [1; 1]%Z);; updatePoints 1 [0%Z] [0%Z] true;; commit;;
     updatePoints 2 [0%Z] [0%Z] true) Mask_init = Ok (tt, s, ev) ∧
    2 ≤ length (_history s) ∧
    (undo;; redo) s = Ok (tt, s', ev') ∧
    getitem (_mask s) 0 0 = Some 2%Z ∧
    getitem (_mask s') 0 0 = Some 1%Z ∧
    ¬ array_equal (_mask s') (_mask s).
Proof.
  do 4 eexists. split; [reflexivity|]. split; [simpl; lia|].
  split; [reflexivity|]. split; [reflexivity|]. split; [reflexivity|].
  intros [_ Hit]. specialize (Hit [0; 0]). cbn in Hit.
  assert (1 = 2)%Z as Habs; [|done]. apply Hit.
  apply elem_of_cons. by left.
Qed.

(** C6. A commit of an unchanged grid with an empty redo list does nothing:
    the object is left as it was and no signal is emitted.  Hence a
    [commit()] that follows a [commit()] that returned is such a no-op: it
    adds no history entry and fires no signal. *)
Theorem commit_idempotent :
  (∀ s top,
     list.last (_history s) = Some top → array_equal (_mask s) top →
     _redo s = [] →
     commit s = Ok (tt, s, [])) ∧
  (∀ s s1 ev1,
     commit s = Ok (tt, s1, ev1) →
     commit s1 = Ok (tt, s1, []) ∧
     (_history s1 = _history s ∨ ∃ h, _history s1 = h ++ [_mask s])).
Proof.
  split.
  - intros s top Hlast Heq Hredo. eapply commit_noop; [done..|].
    by apply array_equal_all_equal.
  - intros s s1 ev1 Hc. pose proof Hc as Hc'.
    apply commit_inv in Hc' as [(-> & -> & _)|(h & Hev & ->)].
    + split; [done|by left].
    + split; [|right; by eexists].
      eapply commit_noop; cbn; [apply last_snoc|done|].
      apply array_equal_all_equal, array_equal_refl.
Qed.

Lemma commit_idempotent_witness :
  let a := {| shape := [1; 2]; data := [0; 3]%Z |} in
  let s := {| historyDepth := 10; _mask := a;
              _history := [zeros [1; 2]]; _redo := [] |} in
  let s1 := {| historyDepth := 10; _mask := a;
               _history := [zeros [1; 2]; a]; _redo := [] |} in
  commit s1 = Ok (tt, s1, []) ∧
  (commit s1 = Ok (tt, s1, []) ∧
   (_history s1 = _history s ∨ ∃ h, _history s1 = h ++ [_mask s])).
Proof.
  intros a s s1. split.
  - apply (proj1 commit_idempotent s1 a); [reflexivity| |reflexivity].
    apply array_equal_refl.
  - apply (proj2 commit_idempotent s s1 [sigUndoable true]). reflexivity.
Defined.

(** ** Reset *)

Lemma zeros_of_Ok sh :
  Forall (λ n, 0 ≤ n)%Z sh → zeros_of sh = Ok (zeros (Z.to_nat <$> sh)).
Proof. intros Hsh. unfold zeros_of. by rewrite decide_True. Qed.

Lemma reset_inv shape s s' ev :
  reset shape s = Ok (tt, s', ev) →
  let sh := default [0; 0]%Z shape in
  let z := zeros (Z.to_nat <$> sh) in
  length sh = 2 ∧ Forall (λ n, 0 ≤ n)%Z sh ∧
  ((sh = Z.of_nat <$> numpy.shape (_mask s) ∧ s' = set_mask z s ∧
    ev = [sigChanged]) ∨
   (sh ≠ Z.of_nat <$> numpy.shape (_mask s) ∧
    s' = {| historyDepth := historyDepth s; _mask := z;
            _history := [z]; _redo := [] |} ∧
    ev = [sigUndoable false; sigRedoable false; sigChanged])).
Proof.
  intros Hr sh z. unfold reset in Hr. fold sh in Hr. unfold_monad.
  unfold zeros_of in Hr. cbn in Hr.
  destruct (bool_decide (length sh = 2)) eqn:Hlen; [|done].
  apply bool_decide_eq_true in Hlen. cbn in Hr.
  destruct (decide (Forall (λ n, 0 ≤ n)%Z sh)) as [Hpos|]; [|done].
  split; [done|]. split; [done|]. cbn in Hr.
  case_bool_decide as Hch; cbn in Hr; injection Hr as <- <-.
  - by right.
  - left. split; [|done].
    by destruct (decide (sh = Z.of_nat <$> numpy.shape (_mask s))).
Qed.

(** C10. [reset(shape)] with a 2-tuple of non-negative integers that is not
    the current shape returns normally, leaves as history the single
    snapshot of the new all-zero grid and an empty redo list whatever they
    were before, and emits [sigChanged] (after the two history signals);
    with the current shape it zeroes the grid, emits [sigChanged] and keeps
    history and redo list.  [reset()] without argument is [reset((0,0))]. *)
Theorem reset_new_shape_resets_history s (rows cols : Z) :
  (0 ≤ rows)%Z → (0 ≤ cols)%Z →
  let z := zeros [Z.to_nat rows; Z.to_nat cols] in
  ([rows; cols] ≠ Z.of_nat <$> shape (_mask s) →
   ∃ s', reset (Some [rows; cols]) s
           = Ok (tt, s', [sigUndoable false; sigRedoable false; sigChanged]) ∧
         _mask s' = z ∧ _history s' = [z] ∧ length (_history s') = 1 ∧
         _redo s' = []) ∧
  ([rows; cols] = Z.of_nat <$> shape (_mask s) →
   ∃ s', reset (Some [rows; cols]) s = Ok (tt, s', [sigChanged]) ∧
         _mask s' = z ∧ shape z = shape (_mask s) ∧
         _history s' = _history s ∧ _redo s' = _redo s) ∧
  reset None s = reset (Some [0; 0]%Z) s.
Proof.
  intros Hr Hc z. rewrite (and_assoc _ _ (reset None s = _)).
  split; [|reflexivity].
  assert (zeros_of [rows; cols] = Ok z) as Hz.
  { apply zeros_of_Ok. by repeat constructor. }
  split; intros Hsh.
  - eexists. split.
    + unfold reset. unfold_monad. cbn. rewrite Hz. cbn.
      repeat case_bool_decide; try done; reflexivity.
    + by repeat split.
  - eexists. split.
    + unfold reset. unfold_monad. cbn. rewrite Hz. cbn.
      repeat case_bool_decide; try done; reflexivity.
    + repeat split. subst z. cbn. destruct (shape (_mask s)) as [|R [|C [|]]]; try done.
      injection Hsh as -> ->. by rewrite !Nat2Z.id.
Qed.

Lemma reset_new_shape_resets_history_witness :
  let a := {| shape := [5; 5]; data := replicate 25 2%Z |} in
  let s := {| historyDepth := 10; _mask := a;
              _history := [zeros [5; 5]; a]; _redo := [zeros [5; 5]] |} in
  let z := zeros [Z.to_nat 10; Z.to_nat 10] in
  ([10; 10]%Z ≠ Z.of_nat <$> shape (_mask s) →
   ∃ s', reset (Some [10; 10]%Z) s
           = Ok (tt, s', [sigUndoable false; sigRedoable false; sigChanged]) ∧
         _mask s' = z ∧ _history s' = [z] ∧ length (_history s') = 1 ∧
         _redo s' = []) ∧
  ([10; 10]%Z = Z.of_nat <$> shape (_mask s) →
   ∃ s', reset (Some [10; 10]%Z) s = Ok (tt, s', [sigChanged]) ∧
         _mask s' = z ∧ shape z = shape (_mask s) ∧
         _history s' = _history s ∧ _redo s' = _redo s) ∧
  reset None s = reset (Some [0; 0]%Z) s.
Proof.
  intros a s. apply (reset_new_shape_resets_history s 10 10); lia.
Defined.

(** ** Sequences of calls *)

Lemma uniform_iff s :
  uniform s ↔
  ∀ a, a ∈ _history s ∨ a ∈ _redo s → shape a = shape (_mask s).
Proof.
  unfold uniform. rewrite list.Forall_forall.
  split; intros Hu a Ha; apply Hu; by apply elem_of_app.
Qed.

Lemma only_mask_frame s s' :
  only_mask s s' →
  historyDepth s' = historyDepth s ∧ _history s' = _history s ∧
  _redo s' = _redo s ∧ shape (_mask s') = shape (_mask s).
Proof. by intros (a & -> & Hsh). Qed.

Lemma state_after_undo_short s :
  length (_history s) ≤ 1 → state_after undo s = s.
Proof. intros Hlen. unfold state_after. by rewrite undo_short. Qed.

Lemma state_after_undo_length s :
  length (_history (state_after undo s))
  ≤ Nat.max 1 (length (_history s) - 1).
Proof.
  unfold state_after.
  destruct (list_snoc2_cases (_history s)) as [Hlen|(h & a & b & Hh)].
  - rewrite undo_short by done. lia.
  - destruct (undo_snoc s h a b Hh) as [ev ->]. cbn.
    rewrite Hh, !length_app. simpl. lia.
Qed.

Lemma undos_fixed n s : length (_history s) ≤ 1 → undos n s = s.
Proof.
  intros Hlen. unfold undos. induction n as [|n IH]; [done|].
  simpl. rewrite IH. by apply state_after_undo_short.
Qed.

Lemma undos_history_length n s :
  length (_history (undos n s)) ≤ Nat.max 1 (length (_history s) - n).
Proof.
  unfold undos. induction n as [|n IH]; simpl; [lia|].
  etrans; [apply state_after_undo_length|]. lia.
Qed.

Lemma undos_stable k n s :
  length (_history s) ≤ S k → k ≤ n → undos n s = undos k s.
Proof.
  intros Hlen Hkn. replace n with ((n - k) + k) by lia.
  unfold undos. rewrite Nat.iter_add. apply undos_fixed.
  etrans; [apply undos_history_length|]. lia.
Qed.

Lemma to_nat_of_nat_fmap (l : list nat) : Z.to_nat <$> (Z.of_nat <$> l) = l.
Proof.
  induction l as [|n l IH]; [done|]. cbn. by rewrite Nat2Z.id, IH.
Qed.

Section reachability.
Context `{Shapes}.

Lemma updatePolygon_inv level vertices mask s s' ev :
  updatePolygon level vertices mask s = Ok (tt, s', ev) → only_mask s s'.
Proof.
  intros Hp. unfold updatePolygon in Hp. monad_inv Hp.
  injection Hp as <- <-. eexists. split; reflexivity.
Qed.

Lemma updateDisk_inv level crow ccol radius mask s s' ev :
  updateDisk level crow ccol radius mask s = Ok (tt, s', ev) → only_mask s s'.
Proof.
  unfold updateDisk. destruct (circle_fill crow ccol radius) as [rows cols].
  apply updatePoints_inv.
Qed.

Lemma updateLine_inv level row0 col0 row1 col1 width mask s s' ev :
  updateLine level row0 col0 row1 col1 width mask s = Ok (tt, s', ev) →
  only_mask s s'.
Proof.
  unfold updateLine.
  destruct (draw_line row0 col0 row1 col1 width) as [rows cols].
  apply updatePoints_inv.
Qed.

(** What each call that returned did. *)
Lemma step_inv s c s' :
  step s c s' →
  match c with
  | CsetMask mask =>
      length (shape mask) = 2 ∧ s' = set_mask (astype_uint8 mask) s
  | CresetHistory =>
      s' = {| historyDepth := historyDepth s; _mask := _mask s;
              _history := [_mask s]; _redo := [] |}
  | Ccommit =>
      (s' = s ∧ _history s ≠ [] ∧ _redo s = []) ∨
      (∃ h, evict (historyDepth s) (_history s) = Ok h ∧
            s' = {| historyDepth := historyDepth s; _mask := _mask s;
                    _history := h ++ [_mask s]; _redo := [] |})
  | Cundo =>
      (length (_history s) ≤ 1 ∧ s' = s) ∨
      (∃ h prev top,
         _history s = h ++ [prev; top] ∧
         s' = {| historyDepth := historyDepth s; _mask := prev;
                 _history := h ++ [prev]; _redo := _redo s ++ [top] |})
  | Credo =>
      (_redo s = [] ∧ s' = s) ∨
      (∃ r top,
         _redo s = r ++ [top] ∧
         s' = {| historyDepth := historyDepth s; _mask := top;
                 _history := _history s ++ [top]; _redo := r |})
  | Creset shape =>
      let sh := default [0; 0]%Z shape in
      let z := zeros (Z.to_nat <$> sh) in
      (sh = Z.of_nat <$> numpy.shape (_mask s) ∧ s' = set_mask z s) ∨
      (sh ≠ Z.of_nat <$> numpy.shape (_mask s) ∧
       s' = {| historyDepth := historyDepth s; _mask := z;
               _history := [z]; _redo := [] |})
  | _ => only_mask s s'
  end.
Proof.
  intros [ev Hc]. destruct c; cbn [call] in Hc.
  - by eapply setMask_inv.
  - rewrite resetHistory_run in Hc. by injection Hc as <- _.
  - apply commit_inv in Hc as [(-> & _ & ? & ?)|?]; [by left|by right].
  - apply undo_inv in Hc as [(? & -> & _)|?]; [by left|by right].
  - apply redo_inv in Hc as [(? & -> & _)|?]; [by left|by right].
  - by eapply clear_inv.
  - apply reset_inv in Hc as (_ & _ & [(? & ? & _)|(? & ? & _)]);
      [by left|by right].
  - by eapply invert_inv.
  - by eapply updateRectangle_inv.
  - by eapply updatePolygon_inv.
  - by eapply updatePoints_inv.
  - by eapply updateStencil_inv.
  - by eapply updateDisk_inv.
  - by eapply updateLine_inv.
Qed.

Lemma step_within_depth s c s' :
  step s c s' → within_depth s →
  within_depth s' ∧ historyDepth s' = historyDepth s.
Proof.
  intros Hstep [Hd Hlen]. apply step_inv in Hstep. unfold within_depth.
  destruct c; cbn in Hstep;
    try (apply only_mask_frame in Hstep as (-> & -> & -> & _); by repeat split).
  - destruct Hstep as [_ ->]. by repeat split.
  - subst s'. cbn. repeat split; [done|lia].
  - destruct Hstep as [(-> & _)|(h & Hev & ->)]; [done|]. cbn.
    apply evict_length in Hev as [Hh _]. rewrite length_app. cbn.
    repeat split; [done|lia].
  - destruct Hstep as [(_ & ->)|(h & prev & top & Hh & ->)]; [done|]. cbn.
    rewrite Hh, !length_app in *. cbn in *. repeat split; [done|lia].
  - destruct Hstep as [(_ & ->)|(r & top & Hr & ->)]; [done|]. cbn.
    rewrite Hr, !length_app in *. cbn in *. repeat split; [done|lia].
  - destruct Hstep as [(_ & ->)|(_ & ->)]; cbn; repeat split; (done || lia).
Qed.

Lemma reachable_within_depth s :
  reachable s → within_depth s ∧ historyDepth s = 10%Z.
Proof.
  induction 1 as [|s c s' _ [IHd IH10] Hstep].
  - unfold within_depth. cbn. repeat split; lia.
  - destruct (step_within_depth s c s' Hstep IHd) as [? Heq].
    split; [done|]. by rewrite Heq.
Qed.

(** C3. In every state reached from a new [Mask] by calls that returned,
    [historyDepth] is 10 and the history holds at most [historyDepth]
    snapshots, also right after a [redo()] (history and redo list together
    never exceed the depth); and [undo()] takes effect at most
    [historyDepth - 1] times in a row: every further call leaves the
    object as it is. *)
Theorem history_depth_bound s :
  reachable s →
  historyDepth s = 10%Z ∧
  (Z.of_nat (length (_history s)) ≤ historyDepth s)%Z ∧
  (Z.of_nat (length (_history s) + length (_redo s)) ≤ historyDepth s)%Z ∧
  (∀ s', step s Credo s' →
         (Z.of_nat (length (_history s')) ≤ historyDepth s')%Z) ∧
  (∀ n, Z.to_nat (historyDepth s - 1) ≤ n →
        undos n s = undos (Z.to_nat (historyDepth s - 1)) s ∧
        state_after undo (undos n s) = undos n s).
Proof.
  intros Hreach.
  destruct (reachable_within_depth s Hreach) as [[Hd Hlen] H10].
  split; [done|]. split; [lia|]. split; [done|]. split.
  - intros s' Hstep.
    destruct (step_within_depth s Credo s' Hstep) as [[_ Hlen'] _]; [done|].
    lia.
  - intros n Hn. rewrite H10 in *.
    assert (undos n s = undos (Z.to_nat (10 - 1)) s) as Hst.
    { apply undos_stable; [lia|done]. }
    split; [done|]. apply state_after_undo_short.
    rewrite Hst. etrans; [apply undos_history_length|]. lia.
Qed.


Lemma step_shape_uniform s c s' :
  step s c s' → uniform s →
  match c with
  | Creset shape =>
      let sh := default [0; 0]%Z shape in
      sh ≠ Z.of_nat <$> numpy.shape (_mask s) →
      _mask s' = zeros (Z.to_nat <$> sh) ∧
      _history s' = [_mask s'] ∧ _redo s' = []
  | CsetMask a => shape (_mask s') = shape a
  | _ => shape (_mask s') = shape (_mask s)
  end ∧
  match c with
  | CsetMask a => shape a = shape (_mask s) → uniform s'
  | _ => uniform s'
  end.
Proof.
  intros Hstep%step_inv Hu.
  destruct c; cbn in Hstep;
    try (apply only_mask_frame in Hstep as (_ & Hh & Hr & Hsh);
         split; [done|]; unfold uniform; by rewrite Hh, Hr, Hsh).
  - destruct Hstep as [_ ->]. split; [done|]. intros Hsh.
    unfold uniform in *. cbn in *. by rewrite Hsh.
  - subst s'. split; [done|]. apply uniform_iff. cbn.
    intros a [->%list_elem_of_singleton|[]%elem_of_nil]. done.
  - destruct Hstep as [(-> & _)|(h & Hev & ->)]; [done|]. split; [done|].
    rewrite uniform_iff in Hu. apply uniform_iff. cbn.
    intros a [[Ha| ->%list_elem_of_singleton]%elem_of_app|[]%elem_of_nil];
      [|done].
    apply Hu. left. by eapply evict_elem_of.
  - destruct Hstep as [(_ & ->)|(h & prev & top & Hh & ->)]; [done|].
    rewrite uniform_iff in Hu. rewrite Hh in Hu.
    assert (shape prev = shape (_mask s)) as Hprev.
    { apply Hu. left. rewrite elem_of_app, !elem_of_cons. tauto. }
    split; [done|]. apply uniform_iff. cbn. rewrite Hprev.
    intros a Ha. apply Hu.
    repeat (setoid_rewrite elem_of_app in Ha
            || setoid_rewrite elem_of_cons in Ha).
    repeat (setoid_rewrite elem_of_app || setoid_rewrite elem_of_cons).
    tauto.
  - destruct Hstep as [(_ & ->)|(r & top & Hr & ->)]; [done|].
    rewrite uniform_iff in Hu. rewrite Hr in Hu.
    assert (shape top = shape (_mask s)) as Htop.
    { apply Hu. right. rewrite elem_of_app, elem_of_cons. tauto. }
    split; [done|]. apply uniform_iff. cbn. rewrite Htop.
    intros a Ha. apply Hu.
    repeat (setoid_rewrite elem_of_app in Ha
            || setoid_rewrite elem_of_cons in Ha).
    repeat (setoid_rewrite elem_of_app || setoid_rewrite elem_of_cons).
    tauto.
  - destruct Hstep as [(Heq & ->)|(Hne & ->)]; cbn.
    + split; [done|]. unfold uniform in *. cbn.
      by rewrite Heq, to_nat_of_nat_fmap.
    + split; [done|]. apply uniform_iff. cbn.
      intros a [->%list_elem_of_singleton|[]%elem_of_nil]. done.
Qed.

(** C8, as amended.  Of the calls that returned, in any state: [setMask(a)]
    gives the grid the shape of [a]; [clear], [invert], the region
    operations, [commit] and [resetHistory] leave the shape of the grid as
    it was; a [reset] to another shape leaves the new zero grid, a history
    with the single snapshot of it and an empty redo list.  [undo] and
    [redo] leave the shape as it was in a state whose snapshots all have the
    shape of the grid, and the snapshots keep the shape of the grid after
    every call but a [setMask] that changes the shape. *)
Theorem shape_changes_only_by_reset_or_setMask s c s' :
  step s c s' →
  match c with
  | Creset shape =>
      let sh := default [0; 0]%Z shape in
      sh ≠ Z.of_nat <$> numpy.shape (_mask s) →
      _mask s' = zeros (Z.to_nat <$> sh) ∧
      _history s' = [_mask s'] ∧ _redo s' = []
  | CsetMask a => shape (_mask s') = shape a
  | Cundo | Credo => uniform s → shape (_mask s') = shape (_mask s)
  | _ => shape (_mask s') = shape (_mask s)
  end ∧
  (uniform s →
   match c with
   | CsetMask a => shape a = shape (_mask s) → uniform s'
   | _ => uniform s'
   end).
Proof.
  intros Hstep. split.
  - pose proof Hstep as Hinv%step_inv.
    destruct c; cbn in Hinv;
      try (by apply only_mask_frame in Hinv as (_ & _ & _ & Hsh)).
    + by destruct Hinv as [_ ->].
    + by subst s'.
    + by destruct Hinv as [(-> & _)|(h & Hev & ->)].
    + intros Hu. exact (proj1 (step_shape_uniform s Cundo s' Hstep Hu)).
    + intros Hu. exact (proj1 (step_shape_uniform s Credo s' Hstep Hu)).
    + by destruct Hinv as [(Heq & ->)|(Hne & ->)].
  - intros Hu. exact (proj2 (step_shape_uniform s c s' Hstep Hu)).
Qed.

End reachability.

(** ** The statements at concrete inputs *)

Lemma history_depth_bound_witness :
  let s := {| historyDepth := 10; _mask := zeros [5; 5];
              _history := [zeros [5; 5]]; _redo := [] |} in
  @reachable no_shapes s ∧
  historyDepth s = 10%Z ∧
  (Z.of_nat (length (_history s)) ≤ historyDepth s)%Z ∧
  (Z.of_nat (length (_history s) + length (_redo s)) ≤ historyDepth s)%Z ∧
  (∀ s', @step no_shapes s Credo s' →
         (Z.of_nat (length (_history s')) ≤ historyDepth s')%Z) ∧
  (∀ n, Z.to_nat (historyDepth s - 1) ≤ n →
        undos n s = undos (Z.to_nat (historyDepth s - 1)) s ∧
        state_after undo (undos n s) = undos n s).
Proof.
  intros s.
  assert (@reachable no_shapes s) as Hreach.
  { apply (@reachable_step no_shapes Mask_init (Creset (Some [5; 5]%Z)) s).
    - apply reachable_init.
    - eexists. reflexivity. }
  split; [exact Hreach|].
  apply (@history_depth_bound no_shapes s Hreach).
Defined.



(** C8 as stated fails for [setMask]: on the 2x2 grid obtained by
    [reset((2,2))], [setMask] with a 1x1 array returns and leaves a grid of
    shape (1,1). *)
Lemma setMask_changes_shape :
  ∃ s0 s1 ev0 ev1,
    reset (Some [2; 2]%Z) Mask_init = Ok (tt, s0, ev0) ∧
    setMask {| shape := [1; 1]; data := [1%Z] |} s0 = Ok (tt, s1, ev1) ∧
    shape (_mask s0) = [2; 2] ∧
    shape (_mask s1) = [1; 1] ∧
    shape (_mask s1) ≠ shape (_mask s0).
Proof. do 4 eexists. repeat split; try reflexivity. discriminate. Qed.

Lemma shape_changes_only_by_reset_or_setMask_witness :
  let a0 := zeros [1; 2] in
  let a1 := {| shape := [1; 2]; data := [0; 4]%Z |} in
  let s := {| historyDepth := 10; _mask := a1;
              _history := [a0; a1]; _redo := [] |} in
  let s' := {| historyDepth := 10; _mask := a0;
               _history := [a0]; _redo := [a1] |} in
  @step no_shapes s Cundo s' ∧ uniform s ∧
  shape (_mask s') = shape (_mask s) ∧ uniform s'.
Proof.
  intros a0 a1 s s'.
  assert (@step no_shapes s Cundo s') as Hstep by (eexists; reflexivity).
  assert (uniform s) as Hu by (repeat constructor).
  split; [exact Hstep|]. split; [exact Hu|].
  exact (conj
    (proj1 (@shape_changes_only_by_reset_or_setMask no_shapes s Cundo s' Hstep)
       Hu)
    (proj2 (@shape_changes_only_by_reset_or_setMask no_shapes s Cundo s' Hstep)
       Hu)).
Defined.

(** The condition on [undo] is needed: after [reset((2,2))], [setMask] with
    a 1x1 array and [commit()], the history holds the 2x2 and the 1x1 grid,
    and [undo()] brings the 2x2 grid back. *)
Lemma undo_restores_older_shape :
  ∃ s,
    @reachable no_shapes s ∧ ¬ uniform s ∧
    shape (_mask s) = [1; 1] ∧
    shape (_mask (state_after undo s)) = [2; 2].
Proof.
  eexists. split; [|split; [|split]].
  - eapply reachable_step.
    + eapply reachable_step.
      * eapply (@reachable_step no_shapes Mask_init (Creset (Some [2; 2]%Z))).
        -- apply reachable_init.
        -- eexists. reflexivity.
      * eexists.
        exact (eq_refl : call (CsetMask {| shape := [1; 1]; data := [1%Z] |})
                           _ = _).
    + eexists. exact (eq_refl : call Ccommit _ = _).
  - intros Hu. apply Forall_cons in Hu as [Hsh _]. discriminate Hsh.
  - reflexivity.
  - reflexivity.
Qed.

(** * Further properties of the class *)

(** ** Whole mask operations *)

Lemma clear_run level s :
  (1 ≤ level ≤ 255)%Z →
  clear level s =
    Ok (tt,
        set_mask
          {| shape := shape (_mask s);
             data := setitem_mask (eq_scalar level (data (_mask s))) 0
                       (data (_mask s)) |}
          s,
        [sigChanged]).
Proof.
  intros Hl. unfold clear, mbind, M_bind, get_self, assert.
  rewrite valid_level_true by done. reflexivity.
Qed.

Lemma clear_lookup level d i :
  setitem_mask (eq_scalar level d) 0 d !! i
  = (λ old, if decide (old = level) then 0%Z else old) <$> d !! i.
Proof.
  unfold eq_scalar. rewrite setitem_mask_lookup by by rewrite length_fmap.
  rewrite list_lookup_fmap. destruct (d !! i) as [old|]; [|done]. cbn.
  f_equal. by case_bool_decide; case_decide.
Qed.

(** [clear(level)] for a level in [1,255] returns, keeps shape, history and
    redo list, sets to 0 every cell that held [level] and leaves every other
    cell as it was; afterwards no cell holds [level]. *)
Theorem clear_erases_level s level :
  (1 ≤ level ≤ 255)%Z →
  ∃ s',
    clear level s = Ok (tt, s', [sigChanged]) ∧
    shape (_mask s') = shape (_mask s) ∧
    _history s' = _history s ∧ _redo s' = _redo s ∧
    (∀ r c old, getitem (_mask s) r c = Some old →
       getitem (_mask s') r c = Some (if decide (old = level) then 0%Z else old)) ∧
    (∀ r c, getitem (_mask s') r c ≠ Some level).
Proof.
  intros Hl. eexists. split; [by apply clear_run|].
  split; [reflexivity|]. split; [reflexivity|]. split; [reflexivity|].
  split.
  - intros r c old Hold. unfold getitem in *. cbn.
    destruct (shape (_mask s)) as [|R [|C [|]]]; try done.
    case_decide; [|done]. by rewrite clear_lookup, Hold.
  - intros r c. unfold getitem. cbn.
    destruct (shape (_mask s)) as [|R [|C [|]]]; try done.
    case_decide; [|done]. rewrite clear_lookup.
    destruct (data (_mask s) !! _) as [old|]; [|done]. cbn.
    case_decide; intros [= ?]; lia.
Qed.

Lemma clear_erases_level_witness :
  let s := set_mask {| shape := [2; 2]; data := [3; 0; 5; 3]%Z |} Mask_init in
  ∃ s',
    clear 3 s = Ok (tt, s', [sigChanged]) ∧
    shape (_mask s') = shape (_mask s) ∧
    _history s' = _history s ∧ _redo s' = _redo s ∧
    (∀ r c old, getitem (_mask s) r c = Some old →
       getitem (_mask s') r c = Some (if decide (old = 3%Z) then 0%Z else old)) ∧
    (∀ r c, getitem (_mask s') r c ≠ Some 3%Z).
Proof. intros s. apply (clear_erases_level s 3%Z). lia. Defined.

(** A level outside [1,255] is refused by the assertion of [clear], [invert]
    and [updateRectangle], whatever the grid and the other arguments: the
    level is never clamped and nothing is changed or signalled. *)
Theorem invalid_level_is_refused s level :
  ¬ (1 ≤ level ≤ 255)%Z →
  clear level s = Raise AssertionError ∧
  invert level s = Raise AssertionError ∧
  ∀ row col height width mask,
    updateRectangle level row col height width mask s = Raise AssertionError.
Proof.
  intros Hl.
  assert (valid_level level = false) as Hv.
  { unfold valid_level. apply bool_decide_eq_false. lia. }
  unfold clear, invert, updateRectangle, mbind, M_bind, assert.
  rewrite Hv. by repeat split.
Qed.

Lemma invalid_level_is_refused_witness :
  let s := set_mask (zeros [2; 2]) Mask_init in
  clear 256 s = Raise AssertionError ∧
  invert 256 s = Raise AssertionError ∧
  ∀ row col height width mask,
    updateRectangle 256 row col height width mask s = Raise AssertionError.
Proof. intros s. apply (invalid_level_is_refused s 256%Z). lia. Defined.

(** ** Stencils and polygons *)

Lemma zip_fmap_same {A B D} (f : A → B) (g : A → D) (l : list A) :
  zip (f <$> l) (g <$> l) = (λ x, (f x, g x)) <$> l.
Proof. induction l as [|x l IH]; [done|]. cbn. by rewrite IH. Qed.

Lemma elem_of_grid_cells R C r c :
  (r, c) ∈ (r ← seq 0 R; (pair r) <$> seq 0 C) ↔ r < R ∧ c < C.
Proof.
  rewrite list_elem_of_bind. split.
  - intros (r' & Hc & Hr). apply list_elem_of_fmap in Hc as (c' & E & Hc).
    injection E as -> ->. apply elem_of_seq in Hr, Hc. lia.
  - intros [Hr Hc]. exists r. split; [|apply elem_of_seq; lia].
    apply list_elem_of_fmap. exists c. split; [done|]. apply elem_of_seq. lia.
Qed.

(** [numpy.nonzero] of a 2D array gives the coordinates of its non-zero
    elements, as two arrays of one length. *)
Lemma nonzero_2d a R C :
  shape a = [R; C] →
  ∃ rows cols,
    nonzero a = Ok (rows, cols) ∧ length rows = length cols ∧
    ∀ r c, (Z.of_nat r, Z.of_nat c) ∈ zip rows cols ↔
           default 0%Z (getitem a r c) ≠ 0%Z.
Proof.
  intros Hsh. unfold nonzero. rewrite Hsh. do 2 eexists.
  split; [reflexivity|]. split; [by rewrite !length_fmap|].
  intros r c. rewrite zip_fmap_same, list_elem_of_fmap. unfold getitem.
  rewrite Hsh. split.
  - intros ([r' c'] & [= Hr Hc] & [Hnz Hin]%list_elem_of_filter).
    apply Nat2Z.inj in Hr, Hc. subst r' c'.
    apply elem_of_grid_cells in Hin. by rewrite decide_True.
  - intros Hnz. case_decide as Hrc; [|done]. exists (r, c). split; [done|].
    apply list_elem_of_filter. split; [done|]. by apply elem_of_grid_cells.
Qed.

(** [updateStencil] on a 2D grid, with a 2D stencil of any shape and a level
    in [1,255], returns and updates exactly the cells of the grid where the
    stencil has a non-zero element: these get [level] when masking, and 0
    when unmasking if they held [level].  A stencil that is larger or
    smaller than the grid is not an error. *)
Theorem updateStencil_updates_nonzero_cells s R C level stencil mask :
  shape (_mask s) = [R; C] → length (shape stencil) = 2 →
  (1 ≤ level ≤ 255)%Z →
  ∃ s',
    updateStencil level stencil mask s = Ok (tt, s', [sigChanged]) ∧
    shape (_mask s') = [R; C] ∧
    _history s' = _history s ∧ _redo s' = _redo s ∧
    ∀ r c old, getitem (_mask s) r c = Some old →
      getitem (_mask s') r c =
        Some (if decide (default 0%Z (getitem stencil r c) ≠ 0%Z)
              then (if mask then level
                    else if decide (old = level) then 0%Z else old)
              else old).
Proof.
  intros Hsh Hst Hl.
  destruct (shape stencil) as [|R' [|C' [|]]] eqn:Hsh'; try done.
  destruct (nonzero_2d stencil R' C' Hsh') as (rows & cols & Hnz & Hlen & Hin).
  destruct (updatePoints_cells s R C level rows cols mask)
    as (s' & Hrun & Hs' & Hshape & _ & Hcells); [done..|].
  exists s'. split.
  { unfold updateStencil, mbind, M_bind, lift. rewrite Hnz, Hrun. reflexivity. }
  split; [done|].
  split; [by rewrite Hs'|]. split; [by rewrite Hs'|].
  intros r c old Hold. rewrite (Hcells r c old Hold).
  f_equal. apply decide_ext, Hin.
Qed.

Lemma updateStencil_updates_nonzero_cells_witness :
  let s := set_mask {| shape := [2; 2]; data := [0; 7; 0; 0]%Z |} Mask_init in
  let stencil := {| shape := [1; 3]; data := [1; 1; 1]%Z |} in
  ∃ s',
    updateStencil 2 stencil true s = Ok (tt, s', [sigChanged]) ∧
    shape (_mask s') = [2; 2] ∧
    _history s' = _history s ∧ _redo s' = _redo s ∧
    ∀ r c old, getitem (_mask s) r c = Some old →
      getitem (_mask s') r c =
        Some (if decide (default 0%Z (getitem stencil r c) ≠ 0%Z)
              then (if true then 2%Z
                    else if decide (old = 2%Z) then 0%Z else old)
              else old).
Proof.
  intros s stencil.
  apply (updateStencil_updates_nonzero_cells s 2 2 2%Z stencil true);
    [reflexivity|reflexivity|lia].
Defined.

(** A stencil that is not 2D makes [updateStencil] raise [ValueError] (the
    two-name unpacking of [numpy.nonzero]) before anything is changed. *)
Lemma updateStencil_rank s level stencil mask :
  length (shape stencil) ≠ 2 →
  updateStencil level stencil mask s = Raise ValueError.
Proof.
  intros Hst. unfold updateStencil, mbind, M_bind, lift, nonzero.
  by destruct (shape stencil) as [|? [|? [|]]].
Qed.

Section polygons.
Context `{Shapes}.

(** [updatePolygon] on a 2D grid, when the geometry module returns a fill of
    the shape of the grid: it returns and updates exactly the cells where
    the fill is non-zero (to [level] when masking; to 0 when unmasking, if
    they held [level]), and keeps history and redo list. *)
Theorem updatePolygon_updates_filled_cells s R C level vertices mask :
  shape (_mask s) = [R; C] →
  shape (polygon_fill_mask vertices [R; C]) = [R; C] →
  length (data (polygon_fill_mask vertices [R; C])) = length (data (_mask s)) →
  (1 ≤ level ≤ 255)%Z →
  let fill := polygon_fill_mask vertices [R; C] in
  ∃ s',
    updatePolygon level vertices mask s = Ok (tt, s', [sigChanged]) ∧
    shape (_mask s') = [R; C] ∧
    _history s' = _history s ∧ _redo s' = _redo s ∧
    ∀ r c old, getitem (_mask s) r c = Some old →
      getitem (_mask s') r c =
        Some (if decide (default 0%Z (getitem fill r c) ≠ 0%Z)
              then (if mask then level
                    else if decide (old = level) then 0%Z else old)
              else old).
Proof.
  intros Hsh Hfsh Hflen Hl fill. eexists. split.
  { unfold updatePolygon, mbind, M_bind, get_self, when. rewrite Hsh.
    fold fill. rewrite bool_decide_false by (intros Hne; by apply Hne).
    reflexivity. }
  split; [reflexivity|]. split; [reflexivity|]. split; [reflexivity|].
  intros r c old (Hr & Hc & Hold)%(getitem_Some _ R C); [|done].
  apply (getitem_Some _ R C); [reflexivity|]. split; [done|]. split; [done|].
  cbn. fold fill.
  assert (is_Some (data fill !! (r * C + c))) as [f Hf].
  { apply lookup_lt_is_Some. unfold fill. rewrite Hflen.
    by eapply lookup_lt_Some. }
  assert (getitem fill r c = Some f) as ->.
  { apply (getitem_Some _ R C); [done|]. by repeat split. }
  cbn. unfold ne_scalar, eq_scalar. destruct mask.
  - rewrite setitem_mask_lookup by (rewrite length_fmap; by apply Hflen).
    rewrite list_lookup_fmap, Hf, Hold. cbn. rewrite to_uint8_level by done.
    by case_bool_decide; case_decide.
  - rewrite setitem_mask_lookup
      by (rewrite length_zip_with, !length_fmap; unfold fill in *; lia).
    rewrite lookup_zip_with, !list_lookup_fmap, Hf, Hold. cbn.
    by repeat case_bool_decide; repeat case_decide.
Qed.

(** A fill of another shape than the grid is an [IndexError]. *)
Lemma updatePolygon_shape_mismatch s level vertices mask :
  shape (polygon_fill_mask vertices (shape (_mask s))) ≠ shape (_mask s) →
  updatePolygon level vertices mask s = Raise IndexError.
Proof.
  intros Hne. unfold updatePolygon, mbind, M_bind, get_self, when.
  by rewrite bool_decide_true.
Qed.

End polygons.

Lemma updatePolygon_updates_filled_cells_witness :
  let s := set_mask {| shape := [2; 2]; data := [0; 7; 0; 0]%Z |} Mask_init in
  let fill := @polygon_fill_mask no_shapes [] [2; 2] in
  ∃ s',
    @updatePolygon no_shapes 2 [] true s = Ok (tt, s', [sigChanged]) ∧
    shape (_mask s') = [2; 2] ∧
    _history s' = _history s ∧ _redo s' = _redo s ∧
    ∀ r c old, getitem (_mask s) r c = Some old →
      getitem (_mask s') r c =
        Some (if decide (default 0%Z (getitem fill r c) ≠ 0%Z)
              then (if true then 2%Z
                    else if decide (old = 2%Z) then 0%Z else old)
              else old).
Proof.
  intros s fill.
  apply (@updatePolygon_updates_filled_cells no_shapes s 2 2 2%Z [] true);
    [reflexivity|reflexivity|reflexivity|lia].
Defined.

(** ** Grid edits and the history *)

Section edits.
Context `{Shapes}.

Lemma updatePoints_signals level rows cols mask s s' ev :
  updatePoints level rows cols mask s = Ok (tt, s', ev) → ev = [sigChanged].
Proof.
  intros Hp. unfold updatePoints in Hp. monad_inv Hp. congruence.
Qed.

(** The methods that edit the grid ([setMask], [clear], [invert] and the six
    drawing methods) never commit: when one returns, it has emitted
    [sigChanged] exactly once and nothing else, and history, redo list and
    [historyDepth] are as before.  Repeated edits, as during a drag, add no
    history entry. *)
Theorem edits_signal_once_and_keep_history s c s' ev :
  call c s = Ok (tt, s', ev) →
  match c with
  | CresetHistory | Ccommit | Cundo | Credo | Creset _ => True
  | _ =>
      ev = [sigChanged] ∧ _history s' = _history s ∧ _redo s' = _redo s ∧
      historyDepth s' = historyDepth s
  end.
Proof.
  intros Hc.
  assert (step s c s') as Hstep%step_inv by by exists ev.
  destruct c; try done; cbn [call] in Hc; cbn in Hstep;
    (split; [|first [by destruct Hstep as [_ ->]
                    |by apply only_mask_frame in Hstep as (-> & -> & -> & _)]]).
  - unfold setMask in Hc. monad_inv Hc. congruence.
  - unfold clear in Hc. monad_inv Hc. congruence.
  - unfold invert in Hc. monad_inv Hc. congruence.
  - unfold updateRectangle in Hc. monad_inv Hc. congruence.
  - unfold updatePolygon in Hc. monad_inv Hc. congruence.
  - by apply updatePoints_signals in Hc.
  - apply bind_Ok in Hc
      as ([rows cols] & s1 & ev1 & ev2 & (_ & -> & ->)%lift_Ok & Hc & ->).
    by apply updatePoints_signals in Hc as ->.
  - unfold updateDisk in Hc. destruct (circle_fill _ _ _).
    by apply updatePoints_signals in Hc.
  - unfold updateLine in Hc. destruct (draw_line _ _ _ _ _).
    by apply updatePoints_signals in Hc.
Qed.

End edits.

Lemma edits_signal_once_and_keep_history_witness :
  let s := {| historyDepth := 10; _mask := zeros [3; 3];
              _history := [zeros [3; 3]]; _redo := [] |} in
  let s' := set_mask {| shape := [3; 3];
                        data := [0; 0; 0; 0; 4; 0; 0; 0; 0]%Z |} s in
  [sigChanged] = [sigChanged] ∧ _history s' = _history s ∧
  _redo s' = _redo s ∧ historyDepth s' = historyDepth s.
Proof.
  intros s s'.
  apply (@edits_signal_once_and_keep_history no_shapes s
           (CupdateRectangle 4 1 1 0 0 true) s' [sigChanged]).
  reflexivity.
Defined.

(** ** Commit *)

Lemma evict_drop depth h :
  (0 < depth)%Z →
  evict depth h = Ok (drop (length h + 1 - Z.to_nat depth) h) ∧
  (Z.of_nat (length (drop (length h + 1 - Z.to_nat depth) h)) < depth)%Z.
Proof.
  intros Hd.
  assert (evict depth h = Ok (drop (length h + 1 - Z.to_nat depth) h)) as Hev.
  { induction h as [|x h IH]; cbn [evict].
    - destruct (Z.geb_spec 0 depth); [lia|]. by rewrite drop_nil.
    - destruct (Z.geb_spec (Z.of_nat (length (x :: h))) depth) as [Hge|Hlt].
      + rewrite IH. cbn [length] in *.
        by replace (S (length h) + 1 - Z.to_nat depth)
          with (S (length h + 1 - Z.to_nat depth)) by lia.
      + cbn [length] in *.
        by replace (S (length h) + 1 - Z.to_nat depth) with 0 by lia. }
  split; [done|]. by apply evict_length in Hev as [? _].
Qed.

(** The eviction loop of [commit] keeps the newest [historyDepth - 1]
    snapshots: with a positive depth it returns the history without its
    oldest entries, as many as needed to get below the depth. *)
Theorem evict_keeps_newest depth h :
  (0 < depth)%Z →
  evict depth h = Ok (drop (length h + 1 - Z.to_nat depth) h) ∧
  (Z.of_nat (length (drop (length h + 1 - Z.to_nat depth) h)) < depth)%Z.
Proof. apply evict_drop. Qed.

Lemma evict_keeps_newest_witness :
  let a := zeros [1; 1] in
  let b := {| shape := [1; 1]; data := [1%Z] |} in
  let c := {| shape := [1; 1]; data := [2%Z] |} in
  evict 3 [a; b; c] = Ok (drop (length [a; b; c] + 1 - Z.to_nat 3) [a; b; c]) ∧
  (Z.of_nat (length (drop (length [a; b; c] + 1 - Z.to_nat 3) [a; b; c])) < 3)%Z.
Proof. intros a b c. apply (evict_keeps_newest 3 [a; b; c]). lia. Defined.

Lemma commit_run s :
  (list.last (_history s) = None ∨ _redo s ≠ [] ∨
   ∃ top, list.last (_history s) = Some top ∧
          all_equal (_mask s) top = Ok false) →
  commit s =
    match evict (historyDepth s) (_history s) with
    | Ok kept =>
        Ok (tt,
            {| historyDepth := historyDepth s; _mask := _mask s;
               _history := kept ++ [_mask s]; _redo := [] |},
            (if decide (_redo s = []) then [] else [sigRedoable false]) ++
            (if decide (length kept = 1) then [sigUndoable true] else []))
    | Raise e => Raise e
    end.
Proof.
  intros Hch. unfold commit. unfold_monad.
  destruct (_redo s) as [|x r] eqn:Hredo;
    (destruct Hch as [Hl|[Hr|(top & Hl & Heq)]];
     [rewrite Hl| |rewrite Hl, ?Heq]); try done;
    try (destruct (list.last (_history s)) as [top|]);
    cbn; destruct (evict _ _) as [kept|]; cbn; try done;
    rewrite length_app, Nat.add_1_r; cbn;
    (destruct (decide (length kept = 1)) as [->|Hne];
     [rewrite bool_decide_true by done|rewrite bool_decide_false by lia]);
    cbn; unfold set_history, set_redo; cbn; by rewrite ?Hredo.
Qed.

Lemma commit_changed s :
  (0 < historyDepth s)%Z →
  (_history s = [] ∨ _redo s ≠ [] ∨
   ∃ top, list.last (_history s) = Some top ∧
          all_equal (_mask s) top = Ok false) →
  let kept :=
    drop (length (_history s) + 1 - Z.to_nat (historyDepth s)) (_history s) in
  commit s =
    Ok (tt,
        {| historyDepth := historyDepth s; _mask := _mask s;
           _history := kept ++ [_mask s]; _redo := [] |},
        (if decide (_redo s = []) then [] else [sigRedoable false]) ++
        (if decide (length kept = 1) then [sigUndoable true] else [])) ∧
  (Z.of_nat (length (kept ++ [_mask s])) ≤ historyDepth s)%Z.
Proof.
  intros Hd Hch kept.
  destruct (evict_drop (historyDepth s) (_history s) Hd) as [Hev Hlen].
  split.
  - rewrite commit_run, Hev; [done|].
    destruct Hch as [->|[?|?]]; [by left|by right; left|by right; right].
  - fold kept in Hlen. rewrite length_app. cbn. lia.
Qed.

(** A commit that has something to record (no history yet, a non-empty redo
    list, or a grid that differs from the last snapshot), under a positive
    [historyDepth]: it returns, empties the redo list, appends the grid to
    the newest [historyDepth - 1] snapshots, emits [sigRedoable(False)] if
    and only if the redo list was not empty, then [sigUndoable(True)] if and
    only if the history now holds two snapshots. *)
Theorem commit_records_snapshot s :
  (0 < historyDepth s)%Z →
  (_history s = [] ∨ _redo s ≠ [] ∨
   ∃ top, list.last (_history s) = Some top ∧
          all_equal (_mask s) top = Ok false) →
  let kept :=
    drop (length (_history s) + 1 - Z.to_nat (historyDepth s)) (_history s) in
  commit s =
    Ok (tt,
        {| historyDepth := historyDepth s; _mask := _mask s;
           _history := kept ++ [_mask s]; _redo := [] |},
        (if decide (_redo s = []) then [] else [sigRedoable false]) ++
        (if decide (length kept = 1) then [sigUndoable true] else [])) ∧
  (Z.of_nat (length (kept ++ [_mask s])) ≤ historyDepth s)%Z.
Proof. apply commit_changed. Qed.

Lemma commit_records_snapshot_witness :
  let a := zeros [1; 1] in
  let b := {| shape := [1; 1]; data := [1%Z] |} in
  let s := {| historyDepth := 2; _mask := b;
              _history := [a; a]; _redo := [b] |} in
  let kept :=
    drop (length (_history s) + 1 - Z.to_nat (historyDepth s)) (_history s) in
  commit s =
    Ok (tt,
        {| historyDepth := historyDepth s; _mask := _mask s;
           _history := kept ++ [_mask s]; _redo := [] |},
        (if decide (_redo s = []) then [] else [sigRedoable false]) ++
        (if decide (length kept = 1) then [sigUndoable true] else [])) ∧
  (Z.of_nat (length (kept ++ [_mask s])) ≤ historyDepth s)%Z.
Proof.
  intros a b s. apply (commit_records_snapshot s).
  - simpl. lia.
  - right. left. discriminate.
Defined.

(** With [historyDepth] set to 0 or less, a commit that has something to
    record raises [IndexError]: the eviction loop pops from the empty
    list. *)
Theorem commit_without_depth_raises s :
  (historyDepth s ≤ 0)%Z →
  (_history s = [] ∨ _redo s ≠ [] ∨
   ∃ top, list.last (_history s) = Some top ∧
          all_equal (_mask s) top = Ok false) →
  commit s = Raise IndexError.
Proof.
  intros Hd Hch.
  assert (∀ h, evict (historyDepth s) h = Raise IndexError) as Hev.
  { induction h as [|x h IH]; cbn [evict].
    - by destruct (Z.geb_spec 0 (historyDepth s)); [|lia].
    - by destruct (Z.geb_spec (Z.of_nat (length (x :: h))) (historyDepth s));
        [|lia]. }
  rewrite commit_run, Hev; [done|].
  destruct Hch as [->|[?|?]]; [by left|by right; left|by right; right].
Qed.

Lemma commit_without_depth_raises_witness :
  commit {| historyDepth := 0; _mask := zeros [1; 1];
            _history := []; _redo := [] |} = Raise IndexError.
Proof.
  apply commit_without_depth_raises; [simpl; lia|by left].
Defined.

Lemma commit_post s s' ev :
  commit s = Ok (tt, s', ev) →
  _mask s' = _mask s ∧ _redo s' = [] ∧
  ∃ top, list.last (_history s') = Some top ∧
         all_equal (_mask s') top = Ok true.
Proof.
  intros Hc.
  destruct (list.last (_history s)) as [top|] eqn:Hlast.
  - destruct (_redo s) as [|x r] eqn:Hredo.
    + destruct (all_equal (_mask s) top) as [[]|e] eqn:Heq.
      * rewrite (commit_noop s top) in Hc by done. injection Hc as <- <-.
        split; [done|]. split; [done|]. by exists top.
      * rewrite commit_run in Hc by (right; right; by exists top).
        destruct (evict _ _); [|done]. injection Hc as <- <-. cbn.
        split; [done|]. split; [done|]. eexists. split; [apply last_snoc|].
        apply array_equal_all_equal, array_equal_refl.
      * unfold commit in Hc. unfold_monad. by rewrite Hlast, Hredo, Heq in Hc.
    + rewrite commit_run in Hc by (right; left; by rewrite Hredo).
      destruct (evict _ _); [|done]. injection Hc as <- <-. cbn.
      split; [done|]. split; [done|]. eexists. split; [apply last_snoc|].
      apply array_equal_all_equal, array_equal_refl.
  - rewrite commit_run in Hc by by left.
    destruct (evict _ _); [|done]. injection Hc as <- <-. cbn.
    split; [done|]. split; [done|]. eexists. split; [apply last_snoc|].
    apply array_equal_all_equal, array_equal_refl.
Qed.

(** After a [commit()] that returned, the redo list is empty and the last
    snapshot of the history compares equal to the grid (in the sense of
    [numpy.all(numpy.equal(...))]); the grid itself is not changed. *)
Theorem commit_postcondition s s' ev :
  commit s = Ok (tt, s', ev) →
  _mask s' = _mask s ∧ _redo s' = [] ∧
  ∃ top, list.last (_history s') = Some top ∧
         all_equal (_mask s') top = Ok true.
Proof. apply commit_post. Qed.

Lemma commit_postcondition_witness :
  let a := zeros [1; 1] in
  let b := {| shape := [1; 1]; data := [1%Z] |} in
  let s := {| historyDepth := 10; _mask := b;
              _history := [a]; _redo := [a] |} in
  let s' := {| historyDepth := 10; _mask := b;
               _history := [a; b]; _redo := [] |} in
  _mask s' = _mask s ∧ _redo s' = [] ∧
  ∃ top, list.last (_history s') = Some top ∧
         all_equal (_mask s') top = Ok true.
Proof.
  intros a b s s'.
  apply (commit_postcondition s s' [sigRedoable false; sigUndoable true]).
  reflexivity.
Defined.

(** ** Undo and redo *)

(** [undo()] with at most one snapshot does nothing and emits nothing.
    Otherwise it moves the last snapshot to the redo list, makes the
    snapshot before it the grid, and emits [sigChanged], then
    [sigRedoable(True)] if and only if the redo list was empty, then
    [sigUndoable(False)] if and only if one snapshot is left. *)
Theorem undo_effect_and_signals s :
  (length (_history s) ≤ 1 → undo s = Ok (tt, s, [])) ∧
  (∀ h prev top,
     _history s = h ++ [prev; top] →
     undo s =
       Ok (tt,
           {| historyDepth := historyDepth s; _mask := prev;
              _history := h ++ [prev]; _redo := _redo s ++ [top] |},
           [sigChanged] ++
           (if decide (_redo s = []) then [sigRedoable true] else []) ++
           (if decide (h = []) then [sigUndoable false] else []))).
Proof.
  split; [apply undo_short|].
  intros h prev top Hh. unfold undo. unfold_monad. rewrite Hh.
  rewrite bool_decide_true by (rewrite length_app; simpl; lia).
  replace (h ++ [prev; top]) with ((h ++ [prev]) ++ [top])
    by by rewrite <- app_assoc.
  rewrite list_pop_snoc. cbn. rewrite list_top_snoc. cbn.
  rewrite !length_app. cbn.
  destruct (_redo s) as [|x r], h as [|y h]; cbn;
    repeat case_bool_decide; repeat case_decide; try done;
    rewrite ?length_app in *; cbn in *; lia.
Qed.

Lemma undo_effect_and_signals_witness :
  let a := zeros [1; 1] in
  let b := {| shape := [1; 1]; data := [1%Z] |} in
  let s := {| historyDepth := 10; _mask := b;
              _history := [a; b]; _redo := [] |} in
  undo s =
    Ok (tt,
        {| historyDepth := historyDepth s; _mask := a;
           _history := [] ++ [a]; _redo := _redo s ++ [b] |},
        [sigChanged] ++
        (if decide (_redo s = []) then [sigRedoable true] else []) ++
        (if decide (@nil ndarray = []) then [sigUndoable false] else [])).
Proof.
  intros a b s.
  apply (proj2 (undo_effect_and_signals s) [] a b). reflexivity.
Defined.

(** [redo()] with an empty redo list does nothing and emits nothing.
    Otherwise it makes the last undone snapshot the grid, appends it to the
    history without eviction, and emits [sigChanged], then
    [sigRedoable(False)] if and only if the redo list is now empty, then
    [sigUndoable(True)] if and only if the history now holds two
    snapshots. *)
Theorem redo_effect_and_signals s :
  (_redo s = [] → redo s = Ok (tt, s, [])) ∧
  (∀ r top,
     _redo s = r ++ [top] →
     redo s =
       Ok (tt,
           {| historyDepth := historyDepth s; _mask := top;
              _history := _history s ++ [top]; _redo := r |},
           [sigChanged] ++
           (if decide (r = []) then [sigRedoable false] else []) ++
           (if decide (length (_history s) = 1)
            then [sigUndoable true] else []))).
Proof.
  split; [apply redo_nil|].
  intros r top Hr. unfold redo. unfold_monad. rewrite Hr.
  rewrite bool_decide_true by (by destruct r).
  rewrite list_pop_snoc. cbn. rewrite length_app, Nat.add_1_r. cbn.
  destruct (decide (r = [])) as [->|Hne];
    [rewrite bool_decide_true by done|rewrite bool_decide_false by done];
    (destruct (decide (length (_history s) = 1)) as [->|Hne'];
     [rewrite bool_decide_true by done|rewrite bool_decide_false by lia]);
    done.
Qed.

Lemma redo_effect_and_signals_witness :
  let a := zeros [1; 1] in
  let b := {| shape := [1; 1]; data := [1%Z] |} in
  let s := {| historyDepth := 10; _mask := a;
              _history := [a]; _redo := [b] |} in
  redo s =
    Ok (tt,
        {| historyDepth := historyDepth s; _mask := b;
           _history := _history s ++ [b]; _redo := [] |},
        [sigChanged] ++
        (if decide (@nil ndarray = []) then [sigRedoable false] else []) ++
        (if decide (length (_history s) = 1) then [sigUndoable true] else [])).
Proof.
  intros a b s.
  apply (proj2 (redo_effect_and_signals s) [] b). reflexivity.
Defined.

(** Committing an edit and undoing it gives back the last committed grid,
    with the edit on the redo list; a redo then gives the edited grid back.
    This holds for a [historyDepth] of at least 2, when the grid differs
    from the last snapshot or the redo list is not empty. *)
Theorem commit_undo_redo s top :
  (2 ≤ historyDepth s)%Z →
  list.last (_history s) = Some top →
  (_redo s ≠ [] ∨ all_equal (_mask s) top = Ok false) →
  ∃ s1 s2 s3 ev1 ev2 ev3,
    commit s = Ok (tt, s1, ev1) ∧
    undo s1 = Ok (tt, s2, ev2) ∧
    redo s2 = Ok (tt, s3, ev3) ∧
    _mask s2 = top ∧ _redo s2 = [_mask s] ∧
    list.last (_history s2) = Some top ∧
    s3 = s1 ∧ _mask s3 = _mask s.
Proof.
  intros Hd Hlast Hch.
  destruct (commit_changed s) as [Hc Hlen]; [lia| |].
  { destruct Hch as [?|?]; [by right; left|right; right; by exists top]. }
  set (kept := drop _ _) in *.
  assert (∃ k, kept = k ++ [top]) as [k Hk].
  { destruct (_history s) as [|x l _] eqn:Hh using rev_ind; [done|].
    rewrite last_snoc in Hlast. injection Hlast as ->.
    subst kept. rewrite length_app in *. cbn in *.
    rewrite drop_app_le by lia. by eexists. }
  rewrite Hk in Hc.
  set (s1 := {| historyDepth := historyDepth s; _mask := _mask s;
                _history := (k ++ [top]) ++ [_mask s]; _redo := [] |}) in *.
  destruct (undo_snoc s1 k top (_mask s)) as [ev2 Hu].
  { cbn. by rewrite <- app_assoc. }
  set (s2 := {| historyDepth := historyDepth s1; _mask := top;
                _history := k ++ [top]; _redo := _redo s1 ++ [_mask s] |}) in *.
  destruct (redo_snoc s2 [] (_mask s) eq_refl) as [ev3 Hr].
  do 6 eexists. split; [exact Hc|]. split; [exact Hu|]. split; [exact Hr|].
  cbn. repeat split. apply last_snoc.
Qed.

Lemma commit_undo_redo_witness :
  let a := zeros [1; 1] in
  let b := {| shape := [1; 1]; data := [1%Z] |} in
  let s := {| historyDepth := 10; _mask := b;
              _history := [a]; _redo := [] |} in
  ∃ s1 s2 s3 ev1 ev2 ev3,
    commit s = Ok (tt, s1, ev1) ∧
    undo s1 = Ok (tt, s2, ev2) ∧
    redo s2 = Ok (tt, s3, ev3) ∧
    _mask s2 = a ∧ _redo s2 = [_mask s] ∧
    list.last (_history s2) = Some a ∧
    s3 = s1 ∧ _mask s3 = _mask s.
Proof.
  intros a b s. apply (commit_undo_redo s a).
  - simpl. lia.
  - reflexivity.
  - right. reflexivity.
Defined.

(** ** Setting and getting the whole mask *)

(** [setMask] of a 2D integer array returns, emits [sigChanged], keeps
    history and redo list, and [getMask] then returns the array converted
    to [uint8]: the array itself when its values are in [0,255].  An array
    that is not 2D is refused by the assertion. *)
Theorem setMask_getMask s a :
  (length (shape a) = 2 →
   ∃ s',
     setMask a s = Ok (tt, s', [sigChanged]) ∧
     getMask s' = Ok (astype_uint8 a, s', []) ∧
     _history s' = _history s ∧ _redo s' = _redo s ∧
     (Forall (λ v, 0 ≤ v < 256)%Z (data a) →
      getMask s' = Ok (a, s', []))) ∧
  (length (shape a) ≠ 2 → setMask a s = Raise AssertionError).
Proof.
  split; intros Hrank.
  - eexists. split.
    { unfold setMask. unfold_monad. rewrite bool_decide_true by done.
      reflexivity. }
    split; [reflexivity|]. split; [reflexivity|]. split; [reflexivity|].
    intros Hrange. unfold getMask. unfold_monad. cbn. do 3 f_equal.
    destruct a as [sh d]. unfold astype_uint8. cbn in *. f_equal.
    induction Hrange as [|v d Hv _ IH]; [done|]. cbn. rewrite IH.
    f_equal. unfold to_uint8. by apply Z.mod_small.
  - unfold setMask. unfold_monad. by rewrite bool_decide_false.
Qed.

Lemma setMask_getMask_witness :
  let s := Mask_init in
  let a := {| shape := [1; 2]; data := [255; 0]%Z |} in
  (∃ s',
     setMask a s = Ok (tt, s', [sigChanged]) ∧
     getMask s' = Ok (astype_uint8 a, s', []) ∧
     _history s' = _history s ∧ _redo s' = _redo s ∧
     (Forall (λ v, 0 ≤ v < 256)%Z (data a) →
      getMask s' = Ok (a, s', []))) ∧
  setMask (zeros [3]) s = Raise AssertionError.
Proof.
  intros s a. split.
  - apply (proj1 (setMask_getMask s a)). reflexivity.
  - apply (proj2 (setMask_getMask s (zeros [3]))). discriminate.
Defined.

(** ** Whole mask operations compose *)

Lemma invert_data level d :
  setitem_mask (eq_scalar level d) 0 (setitem_mask (eq_scalar 0 d) level d)
  = (λ old, if decide (old = level) then 0%Z
            else if decide (old = 0%Z) then level else old) <$> d.
Proof.
  apply list_eq. intros i. rewrite list_lookup_fmap.
  destruct (d !! i) as [old|] eqn:Hold.
  - by rewrite (invert_lookup level d i old).
  - apply lookup_ge_None. apply lookup_ge_None in Hold.
    unfold eq_scalar, setitem_mask.
    rewrite !length_zip_with, !length_fmap. lia.
Qed.

Lemma clear_data level d :
  setitem_mask (eq_scalar level d) 0 d
  = (λ old, if decide (old = level) then 0%Z else old) <$> d.
Proof.
  apply list_eq. intros i. by rewrite clear_lookup, list_lookup_fmap.
Qed.

(** [invert(level)] is its own inverse: two calls in a row return and leave
    the object exactly as it was, having emitted [sigChanged] twice. *)
Theorem invert_twice_is_identity s level :
  (1 ≤ level ≤ 255)%Z →
  (invert level;; invert level) s = Ok (tt, s, [sigChanged; sigChanged]).
Proof.
  intros Hl. unfold mbind, M_bind.
  rewrite invert_run by done. rewrite invert_run by done.
  destruct s as [depth [sh d] h r]. unfold set_mask.
  cbn [_mask data shape historyDepth _history _redo app].
  do 5 f_equal. rewrite !invert_data, <- list_fmap_compose.
  rewrite <- (list_fmap_id d) at 2. apply list_fmap_ext. intros _ old _. cbn.
  repeat case_decide; lia.
Qed.

Lemma invert_twice_is_identity_witness :
  let s := set_mask {| shape := [1; 3]; data := [0; 2; 7]%Z |} Mask_init in
  (invert 2;; invert 2) s = Ok (tt, s, [sigChanged; sigChanged]).
Proof. intros s. apply (invert_twice_is_identity s 2%Z). lia. Defined.

(** [clear(level)] is idempotent: a second call in a row changes nothing
    more. *)
Theorem clear_twice_is_clear s level :
  (1 ≤ level ≤ 255)%Z →
  ∃ s1,
    clear level s = Ok (tt, s1, [sigChanged]) ∧
    clear level s1 = Ok (tt, s1, [sigChanged]).
Proof.
  intros Hl. eexists. split; [by apply clear_run|].
  rewrite clear_run by done. unfold set_mask.
  cbn [_mask data shape historyDepth _history _redo].
  do 5 f_equal. rewrite !clear_data, <- list_fmap_compose.
  apply list_fmap_ext. intros _ old _. cbn. repeat case_decide; lia.
Qed.

Lemma clear_twice_is_clear_witness :
  let s := set_mask {| shape := [1; 3]; data := [0; 2; 7]%Z |} Mask_init in
  ∃ s1,
    clear 2 s = Ok (tt, s1, [sigChanged]) ∧
    clear 2 s1 = Ok (tt, s1, [sigChanged]).
Proof. intros s. apply (clear_twice_is_clear s 2%Z). lia. Defined.

(** * The module [Colors] *)

Lemma prefix_hash_get code :
  String.prefix "#" code = true → String.get 0 code = String.get 0 "#".
Proof.
  destruct code as [|c rest]; [done|]. cbn [String.prefix String.get].
  destruct (Ascii.ascii_dec _ c) as [<-|]; done.
Qed.

Section colors.
Context `{Colors.Builtins}.

Lemma rgba_Name_code code r g b dict :
  String.prefix "#" code = true → String.length code = 7 →
  Colors.int16 (String.substring 1 2 code) = Some r →
  Colors.int16 (String.substring 3 2 code) = Some g →
  Colors.int16 (String.substring 5 2 code) = Some b →
  Colors.rgba (Colors.Name code) dict
  = Colors.Done (Colors.div255 r, Colors.div255 g, Colors.div255 b, Colors.one).
Proof.
  intros Hpre Hlen Hr Hg Hb. unfold Colors.rgba, Colors.parse16.
  rewrite Hpre, Hlen, Hr, Hg, Hb.
  rewrite bool_decide_true by (split; [by left|by apply prefix_hash_get]).
  by rewrite bool_decide_false.
Qed.

Lemma rgba_code code r g b dict :
  Colors.code_rgb code = Some (r, g, b) →
  Colors.rgba (Colors.Name code) dict
  = Colors.Done (Colors.div255 r, Colors.div255 g, Colors.div255 b, Colors.one).
Proof.
  unfold Colors.code_rgb. case_bool_decide as Hc; [|done]. destruct Hc as [Hlen Hpre].
  intros Hrgb. apply rgba_Name_code; try done; revert Hrgb; clear Hpre;
  (destruct code as [|c0 [|a1 [|a2 [|a3 [|a4 [|a5 [|a6 [|a7 rest]]]]]]]];
    try discriminate Hlen);
  cbn [String.get mbind option_bind String.substring];
  (destruct (Colors.hex_digit a1) as [x1|] eqn:H1; [|done]);
  (destruct (Colors.hex_digit a2) as [x2|] eqn:H2; [|done]);
  (destruct (Colors.hex_digit a3) as [x3|] eqn:H3; [|done]);
  (destruct (Colors.hex_digit a4) as [x4|] eqn:H4; [|done]);
  (destruct (Colors.hex_digit a5) as [x5|] eqn:H5; [|done]);
  (destruct (Colors.hex_digit a6) as [x6|] eqn:H6; [|done]);
  cbn; intros [= <- <- <-]; by apply Colors.int16_hex.
Qed.

(** A code [#RRGGBB] of six hexadecimal digits converts to its three
    channels, each divided by 255, with alpha 1, whatever the dictionary. *)
Theorem rgba_hex_code code r g b dict :
  Colors.code_rgb code = Some (r, g, b) →
  Colors.rgba (Colors.Name code) dict
  = Colors.Done (Colors.div255 r, Colors.div255 g, Colors.div255 b, Colors.one).
Proof. apply rgba_code. Qed.

Lemma hex_digit_range c x : Colors.hex_digit c = Some x → (0 ≤ x ≤ 15)%Z.
Proof. unfold Colors.hex_digit. repeat case_decide; intros [= <-]; lia. Qed.


Lemma code_rgb_range code r g b :
  Colors.code_rgb code = Some (r, g, b) →
  (0 ≤ r ≤ 255)%Z ∧ (0 ≤ g ≤ 255)%Z ∧ (0 ≤ b ≤ 255)%Z.
Proof.
  unfold Colors.code_rgb. case_bool_decide; [|done].
  destruct (String.get 1 code ≫= Colors.hex_digit) as [x1|] eqn:H1; [|done].
  destruct (String.get 2 code ≫= Colors.hex_digit) as [x2|] eqn:H2; [|done].
  destruct (String.get 3 code ≫= Colors.hex_digit) as [x3|] eqn:H3; [|done].
  destruct (String.get 4 code ≫= Colors.hex_digit) as [x4|] eqn:H4; [|done].
  destruct (String.get 5 code ≫= Colors.hex_digit) as [x5|] eqn:H5; [|done].
  destruct (String.get 6 code ≫= Colors.hex_digit) as [x6|] eqn:H6; [|done].
  cbn. intros [= <- <- <-].
  repeat match goal with
         | Hd : String.get _ _ ≫= Colors.hex_digit = Some _ |- _ =>
             apply bind_Some in Hd as (? & _ & ?%hex_digit_range)
         end.
  lia.
Qed.

Lemma code_rgb_prefix code rgb :
  Colors.code_rgb code = Some rgb → String.prefix "#" code = true.
Proof. unfold Colors.code_rgb. case_bool_decide as Hc; [|done]. by destruct Hc. Qed.

Lemma rgba_name_lookup name code dict :
  String.prefix "#" name = false →
  default Colors.COLORDICT dict !! name = Some code →
  String.prefix "#" code = true →
  Colors.rgba (Colors.Name name) dict = Colors.rgba (Colors.Name code) dict.
Proof.
  intros Hname Hlook Hcode. unfold Colors.rgba. by rewrite Hname, Hlook, Hcode.
Qed.

Lemma COLORDICT_checked :
  map_Forall (λ name code,
                String.prefix "#" name = false ∧
                is_Some (Colors.code_rgb code)) Colors.COLORDICT.
Proof. apply (bool_decide_unpack _). vm_compute. exact I. Qed.

Lemma cursor_colors_checked :
  map_Forall (λ _ color : string, color ∈ ["pink"; "black"; "white"])
    Colors._COLORMAP_CURSOR_COLORS.
Proof. apply (bool_decide_unpack _). vm_compute. exact I. Qed.

Lemma rgba_name name code :
  Colors.COLORDICT !! name = Some code →
  ∃ r g b,
    Colors.code_rgb code = Some (r, g, b) ∧
    (0 ≤ r ≤ 255)%Z ∧ (0 ≤ g ≤ 255)%Z ∧ (0 ≤ b ≤ 255)%Z ∧
    Colors.rgba (Colors.Name name) None
    = Colors.Done (Colors.div255 r, Colors.div255 g, Colors.div255 b,
                   Colors.one).
Proof.
  intros Hlook.
  destruct (map_Forall_lookup_1 _ _ _ _ COLORDICT_checked Hlook)
    as [Hname [[[r g] b] Hrgb]].
  exists r, g, b. split; [done|].
  destruct (code_rgb_range _ _ _ _ Hrgb) as (? & ? & ?).
  do 3 (split; [done|]).
  rewrite (rgba_name_lookup name code None); [by apply rgba_code|done..|].
  by eapply code_rgb_prefix.
Qed.

(** Every name of [COLORDICT] converts: [rgba] returns the three channels
    of its code, integers in [0,255] divided by 255, and alpha 1.  This
    includes the names of four letters, which are not mistaken for a
    sequence of four numbers. *)
Theorem rgba_named_color name code :
  Colors.COLORDICT !! name = Some code →
  ∃ r g b,
    Colors.code_rgb code = Some (r, g, b) ∧
    (0 ≤ r ≤ 255)%Z ∧ (0 ≤ g ≤ 255)%Z ∧ (0 ≤ b ≤ 255)%Z ∧
    Colors.rgba (Colors.Name name) None
    = Colors.Done (Colors.div255 r, Colors.div255 g, Colors.div255 b,
                   Colors.one).
Proof. apply rgba_name. Qed.

(** The cursor colour of any colormap name is pink, black or white (black
    for a name that is not in the table), and [rgba] converts it: the
    overlay colour of the mask tools never fails to resolve. *)
Theorem cursor_color_converts colormapName :
  let name := Colors.cursorColorForColormap colormapName in
  name ∈ ["pink"; "black"; "white"] ∧
  (Colors._COLORMAP_CURSOR_COLORS !! colormapName = None → name = "black") ∧
  ∃ r g b,
    (0 ≤ r ≤ 255)%Z ∧ (0 ≤ g ≤ 255)%Z ∧ (0 ≤ b ≤ 255)%Z ∧
    Colors.rgba (Colors.Name name) None
    = Colors.Done (Colors.div255 r, Colors.div255 g, Colors.div255 b,
                   Colors.one).
Proof.
  intros name.
  assert (name ∈ ["pink"; "black"; "white"]) as Hin.
  { subst name. unfold Colors.cursorColorForColormap.
    destruct (Colors._COLORMAP_CURSOR_COLORS !! colormapName) as [c|] eqn:Hc.
    - apply (map_Forall_lookup_1 _ _ _ _ cursor_colors_checked Hc).
    - cbn. apply elem_of_cons. right. apply elem_of_cons. by left. }
  split; [done|]. split.
  { intros Hnone. subst name. unfold Colors.cursorColorForColormap.
    by rewrite Hnone. }
  assert (is_Some (Colors.COLORDICT !! name)) as [code Hcode].
  { repeat (apply elem_of_cons in Hin as [->|Hin]; [by vm_compute; eexists|]).
    by apply elem_of_nil in Hin. }
  destruct (rgba_name name code Hcode) as (r & g & b & _ & ? & ? & ? & ?).
  by exists r, g, b.
Qed.

(** Errors of [rgba] on strings.  A name that is not a code and not in the
    dictionary raises [KeyError]; a code starting with [#] whose length is
    neither 7 nor 9 (such as the short form [#fff]) fails the assertion; so
    does a dictionary entry that does not start with [#]. *)
Theorem rgba_errors :
  (∀ name dict,
     String.prefix "#" name = false →
     default Colors.COLORDICT dict !! name = None →
     Colors.rgba (Colors.Name name) dict = Colors.Fail (Colors.KeyError name)) ∧
  (∀ code dict,
     String.prefix "#" code = true →
     String.length code ≠ 7 → String.length code ≠ 9 →
     Colors.rgba (Colors.Name code) dict = Colors.Fail Colors.AssertionError) ∧
  (∀ name code dict,
     String.prefix "#" name = false →
     default Colors.COLORDICT dict !! name = Some code →
     String.prefix "#" code = false →
     Colors.rgba (Colors.Name name) dict = Colors.Fail Colors.AssertionError).
Proof.
  split; [|split].
  - intros name dict Hname Hlook. unfold Colors.rgba. by rewrite Hname, Hlook.
  - intros code dict Hpre H7 H9. unfold Colors.rgba. rewrite Hpre.
    rewrite bool_decide_false; [done|]. intros [[?|?] _]; done.
  - intros name code dict Hname Hlook Hcode. unfold Colors.rgba.
    rewrite Hname, Hlook. rewrite bool_decide_false; [done|].
    intros [_ Hget]. destruct code as [|c rest]; [done|].
    cbn [String.prefix String.get] in *.
    destruct (Ascii.ascii_dec _ c) as [<-|Hne]; [|congruence].
    by destruct rest.
Qed.

End colors.

Lemma rgba_hex_code_witness :
  @Colors.rgba Colors.fractions (Colors.Name "#a52a2a") None
  = Colors.Done (@Colors.div255 Colors.fractions 165,
                 @Colors.div255 Colors.fractions 42,
                 @Colors.div255 Colors.fractions 42,
                 @Colors.one Colors.fractions).
Proof.
  apply (@rgba_hex_code Colors.fractions "#a52a2a" 165 42 42 None).
  reflexivity.
Defined.

Lemma rgba_named_color_witness :
  ∃ r g b,
    Colors.code_rgb "#a0a0a4" = Some (r, g, b) ∧
    (0 ≤ r ≤ 255)%Z ∧ (0 ≤ g ≤ 255)%Z ∧ (0 ≤ b ≤ 255)%Z ∧
    @Colors.rgba Colors.fractions (Colors.Name "gray") None
    = Colors.Done (@Colors.div255 Colors.fractions r,
                   @Colors.div255 Colors.fractions g,
                   @Colors.div255 Colors.fractions b,
                   @Colors.one Colors.fractions).
Proof.
  apply (@rgba_named_color Colors.fractions "gray" "#a0a0a4"). reflexivity.
Defined.

Lemma rgba_errors_witness :
  @Colors.rgba Colors.fractions (Colors.Name "teal") None
    = Colors.Fail (Colors.KeyError "teal") ∧
  @Colors.rgba Colors.fractions (Colors.Name "#fff") None
    = Colors.Fail Colors.AssertionError ∧
  @Colors.rgba Colors.fractions (Colors.Name "sea")
      (Some {["sea" := "0000ff"]})
    = Colors.Fail Colors.AssertionError.
Proof.
  destruct (@rgba_errors Colors.fractions) as (Hkey & Hlen & Hentry).
  split; [|split].
  - apply Hkey; reflexivity.
  - apply Hlen; [reflexivity|discriminate|discriminate].
  - apply (Hentry "sea" "0000ff"); reflexivity.
Defined.

(** * Loading a mask *)

Lemma slice_indices_prefix n len :
  n ≤ len → slice_indices 0 (Z.of_nat n) len = seq 0 n.
Proof.
  intros Hn. unfold slice_indices, slice_bound.
  destruct (Z.ltb_spec 0 0); [lia|].
  destruct (Z.ltb_spec (Z.of_nat n) 0); [lia|].
  f_equal; lia.
Qed.

Lemma foldl_write_lookup C (f : nat * nat → Z) pts (d : list Z) r c :
  c < C → Forall (λ p : nat * nat, p.2 < C) pts →
  foldl (λ d p, <[p.1 * C + p.2 := f p]> d) d pts !! (r * C + c) =
    if decide ((r, c) ∈ pts) then (λ _, f (r, c)) <$> d !! (r * C + c)
    else d !! (r * C + c).
Proof.
  intros Hc. revert d.
  induction pts as [|[r' c'] pts IH]; intros d Hpts.
  - cbn [foldl]. case_decide as Hin; [by apply elem_of_nil in Hin|done].
  - apply Forall_cons_1 in Hpts as [Hp Hpts]. cbn [foldl fst snd] in *.
    rewrite IH by done.
    destruct (decide ((r, c) = (r', c'))) as [[= -> ->]|Hne].
    + rewrite (decide_True (P := (r', c') ∈ (r', c') :: pts))
        by (apply elem_of_cons; left; reflexivity).
      destruct (decide (r' * C + c' < length d)) as [Hlt|Hge].
      * rewrite list_lookup_insert_eq by done.
        apply lookup_lt_is_Some_2 in Hlt as [x ->]. by case_decide.
      * rewrite list_insert_ge by lia.
        rewrite (lookup_ge_None_2 d (r' * C + c')) by lia. by case_decide.
    + rewrite list_lookup_insert_ne.
      2:{ intros E. apply flat_index_inj in E as [-> ->]; done. }
      destruct (decide ((r, c) ∈ pts)) as [Hin|Hnin].
      * rewrite decide_True; [done|]. apply elem_of_cons; by right.
      * rewrite decide_False; [done|]. intros [E|E]%elem_of_cons; done.
Qed.

Lemma zip_diag {A} (l : list A) : zip l l = (λ x, (x, x)) <$> l.
Proof. induction l as [|x l IH]; [done|]. cbn. by rewrite IH. Qed.

Lemma foldl_fmap_l {A B D} (f : D → B → D) (g : A → B) (d : D) (l : list A) :
  foldl f d (g <$> l) = foldl (λ d x, f d (g x)) d l.
Proof. revert d. induction l as [|x l IH]; intros d; [done|]. cbn. apply IH. Qed.

Lemma copy_corner_cells R C R' C' src dst :
  shape src = [R'; C'] → shape dst = [R; C] →
  ∃ out,
    copy_corner (Nat.min R R') (Nat.min C C') src dst = Ok out ∧
    shape out = [R; C] ∧ length (data out) = length (data dst) ∧
    ∀ r c old, getitem dst r c = Some old →
      getitem out r c =
        Some (if decide (r < R' ∧ c < C')
              then to_uint8 (default 0%Z (data src !! (r * C' + c)))
              else old).
Proof.
  intros Hs Hd. unfold copy_corner. rewrite Hs, Hd. eexists.
  split; [reflexivity|]. split; [reflexivity|].
  unfold view_cells. rewrite !slice_indices_prefix by lia.
  rewrite zip_diag, foldl_fmap_l. cbn [fst snd data shape].
  split.
  { generalize (data dst) as d.
    induction (_ ← seq 0 (R `min` R'); _) as [|p l IH]; intros d; [done|].
    cbn [foldl]. by rewrite IH, length_insert. }
  intros r c old (Hr & Hc & Hold)%(getitem_Some _ R C); [|done].
  apply (getitem_Some _ R C); [done|]. split; [done|]. split; [done|].
  cbn [data].
  rewrite (foldl_write_lookup C
             (λ p, to_uint8 (default 0%Z (data src !! (p.1 * C' + p.2))))).
  2: done.
  2:{ apply list.Forall_forall. intros [r0 c0] [_ Hc0]%elem_of_grid_cells. cbn. lia. }
  rewrite Hold. cbn.
  destruct (decide ((r, c) ∈ _)) as [Hin|Hnin].
  - apply elem_of_grid_cells in Hin. rewrite decide_True by lia. done.
  - rewrite decide_False; [done|]. intros [? ?]. apply Hnin.
    apply elem_of_grid_cells. lia.
Qed.

Lemma bind_run {A B} (m : M A) (f : A → M B) s a s1 ev1 b s2 ev2 :
  m s = Ok (a, s1, ev1) → f a s1 = Ok (b, s2, ev2) →
  (m ≫= f) s = Ok (b, s2, ev1 ++ ev2).
Proof. intros Hm Hf. unfold mbind, M_bind. by rewrite Hm, Hf. Qed.

Lemma setMask_run a s :
  length (shape a) = 2 →
  setMask a s = Ok (tt, set_mask (astype_uint8 a) s, [sigChanged]).
Proof.
  intros Hrank. unfold setMask. unfold_monad.
  by rewrite bool_decide_true by done.
Qed.

Lemma all_equal_same_shape a b :
  shape a = shape b → ∃ v, all_equal a b = Ok v.
Proof.
  intros Hsh. unfold all_equal. rewrite <- Hsh, broadcast_shapes_diag.
  by eexists.
Qed.

Lemma commit_total s :
  (0 < historyDepth s)%Z →
  (∀ top, list.last (_history s) = Some top → shape top = shape (_mask s)) →
  ∃ s' ev, commit s = Ok (tt, s', ev).
Proof.
  intros Hd Hsh.
  destruct (list.last (_history s)) as [top|] eqn:Hlast.
  - destruct (all_equal_same_shape (_mask s) top) as [[] Heq];
      [symmetry; by apply Hsh| |].
    + destruct (_redo s) as [|x r] eqn:Hredo.
      * exists s, []. by eapply commit_noop.
      * destruct (commit_changed s) as [-> _]; [done| |by eauto].
        right. left. by rewrite Hredo.
    + destruct (commit_changed s) as [-> _]; [done| |by eauto].
      right. right. by exists top.
  - destruct (commit_changed s) as [-> _]; [done| |by eauto].
    left. by apply last_None.
Qed.

(** [commit()] returns whenever [historyDepth] is positive and the last
    snapshot, if any, has the shape of the grid: the comparison with that
    snapshot cannot fail and the eviction loop ends. *)
Theorem commit_returns s :
  (0 < historyDepth s)%Z →
  (∀ top, list.last (_history s) = Some top → shape top = shape (_mask s)) →
  ∃ s' ev, commit s = Ok (tt, s', ev).
Proof. apply commit_total. Qed.

Lemma to_uint8_idemp v : to_uint8 (to_uint8 v) = to_uint8 v.
Proof. unfold to_uint8. apply Z.mod_mod. lia. Qed.

Lemma getitem_zeros R C r c : r < R → c < C → getitem (zeros [R; C]) r c = Some 0%Z.
Proof.
  intros Hr Hc. apply (getitem_Some _ R C); [done|]. split; [done|]. split; [done|].
  cbn. apply lookup_replicate_2. nia.
Qed.

(** [load], given what the decoders produced.  Without an array, or with an
    array that is not 2D, it returns [False] and leaves the mask object as
    it was, without a signal.  With a 2D array it never gives the mask the
    shape of the file: the grid gets the shape of the image, holding the
    array converted to [uint8], cropped to the image and padded with 0; the
    result is [True] when the shapes agree and the resize message
    otherwise; and the new grid is committed (the redo list is empty and
    the last snapshot equals the grid). *)
Theorem load_fits_mask_to_image s :
  (∀ data_shape decoded,
     decoded = None ∨ (∃ mask, decoded = Some mask ∧ length (shape mask) ≠ 2) →
     load data_shape decoded s = Ok (LoadFalse, s, [])) ∧
  (∀ R C R' C' mask,
     (0 < historyDepth s)%Z →
     (∀ top, list.last (_history s) = Some top → shape top = [R; C]) →
     shape mask = [R'; C'] → length (data mask) = R' * C' →
     ∃ res s' ev,
       load (R, C) (Some mask) s = Ok (res, s', ev) ∧
       res = (if decide ([R'; C'] = [R; C]) then LoadTrue
              else LoadResized [R'; C'] [R; C]) ∧
       shape (_mask s') = [R; C] ∧
       _redo s' = [] ∧
       (∃ top, list.last (_history s') = Some top ∧
               all_equal (_mask s') top = Ok true) ∧
       ∀ r c, r < R → c < C →
         getitem (_mask s') r c =
           Some (if decide (r < R' ∧ c < C')
                 then to_uint8 (default 0%Z (data mask !! (r * C' + c)))
                 else 0%Z)).
Proof.
  split.
  { intros data_shape decoded [->|(mask & -> & Hrank)]; [done|].
    unfold load. by rewrite bool_decide_true. }
  intros R C R' C' mask Hd Htop Hsh Hlen.
  (* the array given to setMask *)
  assert (∃ a,
    (if bool_decide (shape mask = [R; C])
     then setMask mask;; mret LoadTrue
     else
       resizedMask ← lift (copy_corner (Nat.min R (nth 0 (shape mask) 0))
                             (Nat.min C (nth 1 (shape mask) 0)) mask
                             (zeros [R; C]));
       setMask resizedMask;;
       mret (LoadResized (shape mask) (shape resizedMask))) s
    = Ok (if decide ([R'; C'] = [R; C]) then LoadTrue
          else LoadResized [R'; C'] [R; C],
          set_mask a s, [sigChanged]) ∧
    shape a = [R; C] ∧
    ∀ r c, r < R → c < C →
      getitem a r c =
        Some (if decide (r < R' ∧ c < C')
              then to_uint8 (default 0%Z (data mask !! (r * C' + c)))
              else 0%Z)) as (a & Hrun & Hash & Hcells).
  { rewrite Hsh. case_bool_decide as Heq.
    - injection Heq as -> ->. exists (astype_uint8 mask).
      rewrite decide_True by done. split; [|split; [done|]].
      + rewrite <- (app_nil_r [sigChanged]).
        eapply bind_run; [apply setMask_run; by rewrite Hsh|done].
      + intros r c Hr Hc. apply (getitem_Some _ R C); [done|].
        split; [done|]. split; [done|]. cbn. rewrite list_lookup_fmap.
        destruct (lookup_lt_is_Some_2 (data mask) (r * C + c)) as [v ->];
          [nia|]. cbn. by rewrite decide_True.
    - destruct (copy_corner_cells R C R' C' mask (zeros [R; C]))
        as (out & Hcopy & Hosh & _ & Hout); [done..|].
      exists (astype_uint8 out). rewrite decide_False by congruence.
      split; [|split; [done|]].
      + cbn [nth]. rewrite <- (app_nil_l [sigChanged]).
        eapply bind_run; [unfold lift; by rewrite Hcopy|].
        rewrite <- (app_nil_r [sigChanged]).
        eapply bind_run; [apply setMask_run; by rewrite Hosh|].
        by rewrite Hosh.
      + intros r c Hr Hc.
        specialize (Hout r c 0%Z (getitem_zeros R C r c Hr Hc)).
        apply (getitem_Some _ R C) in Hout as (_ & _ & Hout); [|done].
        apply (getitem_Some _ R C); [done|]. split; [done|]. split; [done|].
        cbn. rewrite list_lookup_fmap, Hout. cbn. f_equal.
        case_decide; [apply to_uint8_idemp|done]. }
  destruct (commit_total (set_mask a s)) as (s' & ev & Hc); [done| |].
  { intros top Hl. cbn in *. rewrite Hash. by apply Htop. }
  destruct (commit_post _ _ _ Hc) as (Hm & Hredo & Hpost).
  do 3 eexists. split.
  { unfold load. rewrite bool_decide_false by (rewrite Hsh; intros Hne; by apply Hne).
    eapply bind_run; [exact Hrun|].
    eapply bind_run; [exact Hc|reflexivity]. }
  split; [done|]. rewrite Hm in *. cbn. split; [done|]. split; [done|].
  split; [done|]. exact Hcells.
Qed.

Lemma commit_returns_witness :
  let a := zeros [1; 1] in
  let s := {| historyDepth := 10; _mask := {| shape := [1; 1]; data := [3%Z] |};
              _history := [a]; _redo := [] |} in
  ∃ s' ev, commit s = Ok (tt, s', ev).
Proof.
  intros a s. apply (commit_returns s).
  - simpl. lia.
  - intros top [= <-]. reflexivity.
Defined.

Lemma load_fits_mask_to_image_witness :
  let s := {| historyDepth := 10; _mask := zeros [2; 3];
              _history := [zeros [2; 3]]; _redo := [] |} in
  let mask := {| shape := [3; 2]; data := [1; 2; 3; 4; 5; 6]%Z |} in
  load (2, 3) None s = Ok (LoadFalse, s, []) ∧
  ∃ res s' ev,
    load (2, 3) (Some mask) s = Ok (res, s', ev) ∧
    res = (if decide ([3; 2] = [2; 3]) then LoadTrue
           else LoadResized [3; 2] [2; 3]) ∧
    shape (_mask s') = [2; 3] ∧
    _redo s' = [] ∧
    (∃ top, list.last (_history s') = Some top ∧
            all_equal (_mask s') top = Ok true) ∧
    ∀ r c, r < 2 → c < 3 →
      getitem (_mask s') r c =
        Some (if decide (r < 3 ∧ c < 2)
              then to_uint8 (default 0%Z (data mask !! (r * 2 + c)))
              else 0%Z).
Proof.
  intros s mask. split.
  - apply (proj1 (load_fits_mask_to_image s) (2, 3) None). by left.
  - apply (proj2 (load_fits_mask_to_image s) 2 3 3 2 mask).
    + simpl. lia.
    + intros top [= <-]. reflexivity.
    + reflexivity.
    + reflexivity.
Defined.

(** * Drawing before the first reset *)

(** While the mask is a 1D array, as it is from construction until the first
    [reset] or [setMask], the drawing methods that index two axes raise
    [IndexError]: [updatePoints] (coordinate arrays of one length) and
    [updateRectangle] (level in [1,255]). *)
Theorem drawing_on_1d_mask_raises s n :
  shape (_mask s) = [n] →
  (∀ level rows cols mask,
     length rows = length cols →
     updatePoints level rows cols mask s = Raise IndexError) ∧
  (∀ level row col height width mask,
     (1 ≤ level ≤ 255)%Z →
     updateRectangle level row col height width mask s = Raise IndexError).
Proof.
  intros Hsh. split.
  - intros level rows cols mask Hlen. unfold updatePoints. unfold_monad.
    rewrite bool_decide_false by tauto. by rewrite Hsh.
  - intros level row col height width mask Hl. unfold updateRectangle.
    unfold_monad. rewrite valid_level_true by done. by rewrite Hsh.
Qed.

Lemma drawing_on_1d_mask_raises_witness :
  (∀ level rows cols mask,
     length rows = length cols →
     updatePoints level rows cols mask Mask_init = Raise IndexError) ∧
  (∀ level row col height width mask,
     (1 ≤ level ≤ 255)%Z →
     updateRectangle level row col height width mask Mask_init
       = Raise IndexError).
Proof. apply (drawing_on_1d_mask_raises Mask_init 0). reflexivity. Defined.
